(** * SceneMgr: a catalog of remote-sensing scenes

    Shallow embedding of [src/scene_mgr.py] (class [SceneMgr]) and the
    properties of its catalog operations: the satellite-name resolver,
    footprint construction, duplicate handling, the stratified splits
    and the colour lookup of the map view.

    Conventions of the embedding.
    - A Python [str] is a [string]; paths are taken to be ASCII, so
      [str.upper] and [str.lower] act on the letters a-z / A-Z only, and
      [os.path] is the POSIX one.
    - A Python [int] is a [Z]; [float] is the binary64 type [float] of
      the kernel, so that [round(len(xs) * ratio)] is computed bit for bit.
    - The table [self.gdf] is the list of its rows, in row order; a column
      is the list of its values, a boolean mask a list of [bool].
    - An exception is a value of type [error]; functions that can raise
      return a [result], and functions that also read or change the state
      of the random generator or of the file system live in the monad [M].
    - The libraries that the class calls are modelled as far as the class
      uses them: [str] and [os.path] functions, [np.argmax] and
      [np.array_split], [Series.duplicated], [unique] and [isin],
      [random.seed] and [random.shuffle], the ring closure of a shapely
      polygon.  Rasters ([gdal], [coordinate_ops]) and the file system are
      interfaces, of which a sample instance is given. *)

From Stdlib Require Import ZArith Floats String Ascii List Permutation Lia.
From stdpp Require Import gmap strings list pretty sorting.

Import ListNotations.
Local Open Scope Z_scope.

#[local] Set Warnings "-clear-no-such-hyp,-inexact-float".

(** ** Python strings *)

Module PyStr.

Definition upper_char (c : ascii) : ascii :=
  let n := nat_of_ascii c in
  if ((97 <=? n) && (n <=? 122))%nat then ascii_of_nat (n - 32) else c.

Definition lower_char (c : ascii) : ascii :=
  let n := nat_of_ascii c in
  if ((65 <=? n) && (n <=? 90))%nat then ascii_of_nat (n + 32) else c.

(** [s.upper()] and [s.lower()] *)
Fixpoint upper (s : string) : string :=
  match s with
  | EmptyString => EmptyString
  | String c s' => String (upper_char c) (upper s')
  end.

Fixpoint lower (s : string) : string :=
  match s with
  | EmptyString => EmptyString
  | String c s' => String (lower_char c) (lower s')
  end.

(** [s.startswith(p)] *)
Definition startswith (s p : string) : bool := String.prefix p s.

(** [s[n:]] for [n >= 0] *)
Fixpoint drop_str (n : nat) (s : string) : string :=
  match n, s with
  | O, _ => s
  | S n', String _ s' => drop_str n' s'
  | S _, EmptyString => EmptyString
  end.

(** [s[:n]] for [n >= 0] *)
Fixpoint take_str (n : nat) (s : string) : string :=
  match n, s with
  | S n', String c s' => String c (take_str n' s')
  | _, _ => EmptyString
  end.

(** [s.endswith(p)] *)
Definition endswith (s p : string) : bool :=
  (String.length p <=? String.length s)%nat
  && String.eqb (drop_str (String.length s - String.length p) s) p.

(** [s.endswith(ps)] for a tuple [ps] of suffixes *)
Definition endswith_any (s : string) (ps : list string) : bool :=
  existsb (endswith s) ps.

(** [s.rfind(sub)]: scan left to right, remembering the last index at
    which [sub] starts; [-1] when there is none. *)
Fixpoint rfind_from (i found : Z) (s sub : string) : Z :=
  let found' := if startswith s sub then i else found in
  match s with
  | EmptyString => found'
  | String _ s' => rfind_from (i + 1) found' s' sub
  end.

Definition rfind (s sub : string) : Z := rfind_from 0 (-1) s sub.

(** [sub] occurs in [s] at index [i]. *)
Definition occurs_at (s sub : string) (i : Z) : Prop :=
  exists pre post : string,
    s = pre +:+ sub +:+ post /\ Z.of_nat (String.length pre) = i.

(** [r] is what [rfind] has to return: the rightmost index of an
    occurrence, or [-1] when there is no occurrence. *)
Definition rightmost_index (s sub : string) (r : Z) : Prop :=
  (r = -1 /\ forall i, ~ occurs_at s sub i)
  \/ (0 <= r /\ occurs_at s sub r /\ forall i, occurs_at s sub i -> i <= r).

End PyStr.

(** ** numpy *)

Module Np.

(** [np.argmax] on a one-dimensional array of integers: the index of the
    first maximum. *)
Fixpoint argmax_from (best_i : nat) (best : Z) (i : nat) (l : list Z) : nat :=
  match l with
  | [] => best_i
  | x :: l' =>
      if best <? x then argmax_from i x (S i) l'
      else argmax_from best_i best (S i) l'
  end.

Definition argmax (l : list Z) : nat :=
  match l with
  | [] => O
  | x :: l' => argmax_from 0 x 1 l'
  end.

(** [np.cumsum] *)
Fixpoint cumsum_from (acc : nat) (l : list nat) : list nat :=
  match l with
  | [] => []
  | x :: l' => (acc + x)%nat :: cumsum_from (acc + x) l'
  end.

Definition cumsum (l : list nat) : list nat := cumsum_from 0 l.

End Np.

(** ** The satellite-name resolver *)

Definition SATELLITE_NAMES : list string :=
  ["WV3"; "WV2"; "WV1"; "K3"; "K3A"; "SKYSAT"; "PLANETSCOPE"].

Definition sat_match_indices_of (path : string) : list Z :=
  map (PyStr.rfind (PyStr.upper path)) SATELLITE_NAMES.

Definition _get_satellite_name (path : string) : string :=
  let sat_match_indices := sat_match_indices_of path in
  let sat_idx := Np.argmax sat_match_indices in
  if negb (nth sat_idx sat_match_indices (-1) =? -1)
  then nth sat_idx SATELLITE_NAMES "UNKNOWN"
  else "UNKNOWN".

(** ** os.path (POSIX flavour) *)

Module OsPath.

Import PyStr.

Definition sep : string := "/".

(** [os.path.join(a, b)] *)
Definition join (a b : string) : string :=
  if startswith b sep then b
  else if (String.eqb a "" || endswith a sep)%bool then a +:+ b
  else a +:+ sep +:+ b.

(** [os.path.basename(p)] *)
Definition basename (p : string) : string :=
  drop_str (Z.to_nat (rfind p sep + 1)) p.

Fixpoint all_sep (s : string) : bool :=
  match s with
  | EmptyString => true
  | String c s' => Ascii.eqb c "/" && all_sep s'
  end.

(** [s.rstrip('/')] *)
Fixpoint rstrip_sep (s : string) : string :=
  match s with
  | EmptyString => EmptyString
  | String c s' => if all_sep s then EmptyString else String c (rstrip_sep s')
  end.

(** [os.path.dirname(p)] *)
Definition dirname (p : string) : string :=
  let head := take_str (Z.to_nat (rfind p sep + 1)) p in
  if (negb (String.eqb head "") && negb (all_sep head))%bool
  then rstrip_sep head else head.

(** The loop of [genericpath._splitext] that skips the leading dots of
    the last component: is there a character other than [.] in
    [p[filenameIndex:dotIndex]]? *)
Fixpoint has_non_dot (s : string) : bool :=
  match s with
  | EmptyString => false
  | String c s' => negb (Ascii.eqb c ".") || has_non_dot s'
  end.

(** [os.path.splitext(p)] *)
Definition splitext (p : string) : string * string :=
  let sepIndex := rfind p sep in
  let dotIndex := rfind p "." in
  if (sepIndex <? dotIndex)
     && has_non_dot (take_str (Z.to_nat (dotIndex - (sepIndex + 1)))
                              (drop_str (Z.to_nat (sepIndex + 1)) p))
  then (take_str (Z.to_nat dotIndex) p, drop_str (Z.to_nat dotIndex) p)
  else (p, "").

End OsPath.

(** ** Exceptions, and the monad of code that raises and has a state *)

Inductive error : Type :=
| KeyError (key : string)
| ValueError (msg : string)
| OverflowError (msg : string)
| OSError (msg : string)
| GEOSException (msg : string).

Inductive result (A : Type) : Type :=
| Ok (a : A)
| Raise (e : error).

Arguments Ok {A} a.
Arguments Raise {A} e.

Definition M (S A : Type) : Type := S -> result A * S.

Definition ret {S A : Type} (a : A) : M S A := fun s => (Ok a, s).

Definition bind {S A B : Type} (m : M S A) (k : A -> M S B) : M S B :=
  fun s => match m s with
           | (Ok a, s') => k a s'
           | (Raise e, s') => (Raise e, s')
           end.

Notation "x <- m ;; k" := (bind m (fun x => k))
  (at level 100, m at next level, right associativity).

(** [for x in xs: acc = body(x, acc)], stopping at the first exception. *)
Fixpoint for_each {S A B : Type} (xs : list A) (body : A -> B -> M S B) (acc : B)
  : M S B :=
  match xs with
  | [] => ret acc
  | x :: xs' => acc' <- body x acc ;; for_each xs' body acc'
  end.

(** The same loop for code without a state. *)
Fixpoint for_each_pure {A B : Type} (xs : list A) (body : A -> B -> result B)
  (acc : B) : result B :=
  match xs with
  | [] => Ok acc
  | x :: xs' =>
      match body x acc with
      | Ok acc' => for_each_pure xs' body acc'
      | Raise e => Raise e
      end
  end.

(** ** Python numbers and sequences *)

Module Py.

(** [float(n)] for an [int] below [2^63] in absolute value, as the
    lengths of lists are *)
Definition float_of_int (n : Z) : float :=
  if n <? 0 then PrimFloat.opp (PrimFloat.of_uint63 (Uint63.of_Z (- n)))
  else PrimFloat.of_uint63 (Uint63.of_Z n).

(** [n * x] for an [int] and a [float] *)
Definition mul_int_float (n : Z) (x : float) : float :=
  PrimFloat.mul (float_of_int n) x.

(** The integer nearest to [m * 2^e], ties going to the even one. *)
Definition round_half_even (m : positive) (e : Z) : Z :=
  if 0 <=? e then Z.pos m * 2 ^ e
  else
    let d := 2 ^ (- e) in
    let q := Z.pos m / d in
    let r := Z.pos m mod d in
    if 2 * r <? d then q
    else if d <? 2 * r then q + 1
    else if Z.even q then q else q + 1.

(** [round(x)] for a [float]: an [int], or an exception on a NaN or an
    infinity. *)
Definition round (x : float) : result Z :=
  match Prim2SF x with
  | S754_zero _ => Ok 0
  | S754_infinity _ => Raise (OverflowError "cannot convert float infinity to integer")
  | S754_nan => Raise (ValueError "cannot convert float NaN to integer")
  | S754_finite s m e =>
      Ok (if s then - round_half_even m e else round_half_even m e)
  end.

(** Where a slice bound [n] falls in a sequence of length [len]. *)
Definition slice_bound (n : Z) (len : nat) : nat :=
  if n <? 0 then Z.to_nat (Z.max 0 (Z.of_nat len + n))
  else Z.to_nat (Z.min n (Z.of_nat len)).

(** [l[:n]] and [l[n:]] *)
Definition slice_to {A : Type} (n : Z) (l : list A) : list A :=
  take (slice_bound n (length l)) l.

Definition slice_from {A : Type} (n : Z) (l : list A) : list A :=
  drop (slice_bound n (length l)) l.

(** [x[i], x[j] = x[j], x[i]].  (An index out of range, on which Python
    raises, does not arise in [random.shuffle], whose [j] is at most [i].) *)
Definition swap {A : Type} (x : list A) (i j : nat) : list A :=
  match x !! i, x !! j with
  | Some xi, Some xj => <[j:=xi]> (<[i:=xj]> x)
  | _, _ => x
  end.

(** [s[n:]] for a [str] *)
Definition str_slice_from (n : Z) (s : string) : string :=
  PyStr.drop_str (slice_bound n (String.length s)) s.

(** [l[a:b]] *)
Definition slice {A : Type} (a b : Z) (l : list A) : list A :=
  take (slice_bound b (length l) - slice_bound a (length l))
       (drop (slice_bound a (length l)) l).

(** [range(n)] *)
Definition range (n : Z) : list Z := map Z.of_nat (seq 0 (Z.to_nat n)).

(** [str(n)] for an [int] *)
Definition str (n : Z) : string := pretty n.

End Py.

(** ** The module [random] *)

(** The generator behind [random]: its state, [random.seed] and the
    bounded draw [_randbelow(n)], which returns an integer below [n]. *)
Class PyRandom : Type := {
  rng_state : Type;
  seed : Z -> rng_state;
  _randbelow : nat -> rng_state -> nat * rng_state;
  _randbelow_lt : forall (n : nat) (s : rng_state),
      (0 < n)%nat -> (fst (_randbelow n s) < n)%nat
}.

Module Random.
Section Random.

Context `{PyRandom}.

(** [random.seed(a)] replaces the state of the shared generator. *)
Definition set_seed (a : Z) : M rng_state unit :=
  fun _ => (Ok tt, seed a).

Definition randbelow (n : nat) : M rng_state nat :=
  fun s => let (j, s') := _randbelow n s in (Ok j, s').

(** [random.shuffle(x)]:
    [for i in reversed(range(1, len(x))): j = randbelow(i + 1); swap]. *)
Fixpoint shuffle_loop {A : Type} (i : nat) (x : list A) : M rng_state (list A) :=
  match i with
  | O => ret x
  | S i' => j <- randbelow (i + 1) ;; shuffle_loop i' (Py.swap x i j)
  end.

Definition shuffle {A : Type} (x : list A) : M rng_state (list A) :=
  shuffle_loop (length x - 1) x.

End Random.
End Random.

(** ** The generator of CPython: MT19937 *)

Module MT19937.

Record state : Type := { mt : list Z; index : nat }.

Definition uint32 (x : Z) : Z := Z.land x 0xffffffff.

Definition word (mt : list Z) (i : nat) : Z := nth i mt 0.

(** [init_genrand(s)]: [mt[i] = 1812433253 * (mt[i-1] ^ (mt[i-1] >> 30)) + i] *)
Fixpoint init_genrand_loop (k i : nat) (prev : Z) : list Z :=
  match k with
  | O => []
  | S k' =>
      let v := uint32 (1812433253 * Z.lxor prev (Z.shiftr prev 30) + Z.of_nat i) in
      v :: init_genrand_loop k' (S i) v
  end.

Definition init_genrand (s : Z) : list Z :=
  uint32 s :: init_genrand_loop 623 1 (uint32 s).

(** The two loops of [init_by_array(init_key, key_length)]. *)
Fixpoint key_loop (k i j : nat) (init_key : list Z) (mt : list Z) : nat * list Z :=
  match k with
  | O => (i, mt)
  | S k' =>
      let p := word mt (i - 1) in
      let v := uint32 (Z.lxor (word mt i) (Z.lxor p (Z.shiftr p 30) * 1664525)
                       + nth j init_key 0 + Z.of_nat j) in
      let mt := <[i:=v]> mt in
      let i := S i in
      let j := S j in
      let '(i, mt) := if (624 <=? i)%nat then (1%nat, <[0%nat:=word mt 623]> mt)
                      else (i, mt) in
      let j := if (length init_key <=? j)%nat then 0%nat else j in
      key_loop k' i j init_key mt
  end.

Fixpoint mix_loop (k i : nat) (mt : list Z) : list Z :=
  match k with
  | O => mt
  | S k' =>
      let p := word mt (i - 1) in
      let v := uint32 (Z.lxor (word mt i) (Z.lxor p (Z.shiftr p 30) * 1566083941)
                       - Z.of_nat i) in
      let mt := <[i:=v]> mt in
      let i := S i in
      let '(i, mt) := if (624 <=? i)%nat then (1%nat, <[0%nat:=word mt 623]> mt)
                      else (i, mt) in
      mix_loop k' i mt
  end.

Definition init_by_array (init_key : list Z) : state :=
  let mt := init_genrand 19650218 in
  let '(i, mt) := key_loop (Nat.max 624 (length init_key)) 1 0 init_key mt in
  let mt := mix_loop 623 i mt in
  {| mt := <[0%nat:=0x80000000]> mt; index := 624 |}.

(** The 32-bit digits of a non-negative integer, least significant first
    (at least one digit). *)
Fixpoint digits32 (fuel : nat) (n : Z) : list Z :=
  match fuel with
  | O => [uint32 n]
  | S fuel' =>
      if n <? 0x100000000 then [n] else uint32 n :: digits32 fuel' (Z.shiftr n 32)
  end.

(** [random.seed(a)] for an [int]: the key is [abs(a)]. *)
Definition seed (a : Z) : state :=
  init_by_array (digits32 (Z.to_nat (Z.log2 (Z.abs a))) (Z.abs a)).

(** The regeneration of the 624 words, in place. *)
Fixpoint twist_loop (k kk : nat) (mt : list Z) : list Z :=
  match k with
  | O => mt
  | S k' =>
      let y := Z.lor (Z.land (word mt kk) 0x80000000)
                     (Z.land (word mt ((kk + 1) mod 624)) 0x7fffffff) in
      let v := Z.lxor (Z.lxor (word mt ((kk + 397) mod 624)) (Z.shiftr y 1))
                      (if Z.odd y then 0x9908b0df else 0) in
      twist_loop k' (S kk) (<[kk:=v]> mt)
  end.

Definition genrand_uint32 (s : state) : Z * state :=
  let s := if (624 <=? index s)%nat
           then {| mt := twist_loop 624 0 (mt s); index := 0 |} else s in
  let y := word (mt s) (index s) in
  let y := Z.lxor y (Z.shiftr y 11) in
  let y := Z.lxor y (Z.land (Z.shiftl y 7) 0x9d2c5680) in
  let y := Z.lxor y (Z.land (Z.shiftl y 15) 0xefc60000) in
  let y := Z.lxor y (Z.shiftr y 18) in
  (y, {| mt := mt s; index := S (index s) |}).

(** [getrandbits(k)] for [k <= 32] *)
Definition getrandbits (k : Z) (s : state) : Z * state :=
  let '(y, s) := genrand_uint32 s in (Z.shiftr y (32 - k), s).

(** [n.bit_length()] *)
Definition bit_length (n : Z) : Z := if n =? 0 then 0 else Z.log2 n + 1.

(** [_randbelow_with_getrandbits(n)]: draw [k] bits until the draw is
    below [n].  A draw is rejected with probability below one half; the
    loop is cut after [fuel] rejections in a row, where it answers 0. *)
Fixpoint randbelow_loop (fuel : nat) (n k : Z) (s : state) : nat * state :=
  let '(r, s) := getrandbits k s in
  if r <? n then (Z.to_nat r, s)
  else match fuel with
       | O => (0%nat, s)
       | S fuel' => randbelow_loop fuel' n k s
       end.

Definition randbelow (n : nat) (s : state) : nat * state :=
  randbelow_loop 1000 (Z.of_nat n) (bit_length (Z.of_nat n)) s.

End MT19937.

(** [np.array_split(ary, n)] on a one-dimensional array: the first
    [len(ary) % n] sections have [len(ary) // n + 1] elements, the others
    [len(ary) // n]. *)
Definition array_split {A : Type} (ary : list A) (Nsections : Z)
  : result (list (list A)) :=
  if Nsections <=? 0 then Raise (ValueError "number sections must be larger than 0.")
  else
    let Ntotal := length ary in
    let n := Z.to_nat Nsections in
    let Neach_section := (Ntotal / n)%nat in
    let extras := (Ntotal mod n)%nat in
    let section_sizes :=
      0%nat :: replicate extras (Neach_section + 1)%nat
            ++ replicate (n - extras) Neach_section in
    let div_points := Np.cumsum section_sizes in
    Ok (map (fun i => Py.slice (Z.of_nat (nth i div_points 0%nat))
                               (Z.of_nat (nth (i + 1) div_points 0%nat)) ary)
            (seq 0 n)).

(** ** shapely *)

Module Shapely.

Definition point : Type := float * float.

Definition point_eqb (p q : point) : bool :=
  PrimFloat.eqb (fst p) (fst q) && PrimFloat.eqb (snd p) (snd q).

(** The exterior ring of a polygon: a coordinate sequence whose first and
    last coordinates are equal is closed as it is, any other is closed by
    repeating its first coordinate at the end. *)
Definition close_ring (coords : list point) : list point :=
  match coords, last coords with
  | p :: _, Some q => if point_eqb p q then coords else coords ++ [p]
  | _, _ => coords
  end.

Record Polygon : Type := { exterior_coords : list point }.

(** What GEOS asks of a linear ring: its first and its last coordinate are
    equal.  The comparison is that of the floating-point numbers, under
    which a NaN is equal to nothing, itself included. *)
Definition ring_closed (ring : list point) : bool :=
  match ring, last ring with
  | p :: _, Some q => point_eqb p q
  | _, _ => true
  end.

(** [geometry.Polygon(shell)], for the four corners that the catalog
    builder passes.  The shell is closed by a repeat of its first
    coordinate when its two ends differ, and GEOS makes a linear ring of
    the result.  Infinite coordinates pass.  A first coordinate with a NaN
    differs from every coordinate, the repeat of itself included: the ring
    cannot be closed, and shapely (2.x) raises the [GEOSException] of
    GEOS. *)
Definition mkPolygon (shell : list point) : result Polygon :=
  let ring := close_ring shell in
  if ring_closed ring then Ok {| exterior_coords := ring |}
  else Raise (GEOSException
                "IllegalArgumentException: Points of LinearRing do not form a closed linestring").

Definition is_finite (x : float) : bool :=
  negb (PrimFloat.is_nan x) && negb (PrimFloat.is_infinity x).

Definition point_finite (p : point) : bool :=
  is_finite (fst p) && is_finite (snd p).

End Shapely.

(** ** pandas *)

Module Pandas.

(** [Series.duplicated()], with its default [keep='first']: the mask that
    is [True] where the value has been seen at an earlier row. *)
Fixpoint duplicated_from (seen : gset string) (l : list string) : list bool :=
  match l with
  | [] => []
  | x :: l' => bool_decide (x ∈ seen) :: duplicated_from ({[x]} ∪ seen) l'
  end.

Definition duplicated (l : list string) : list bool := duplicated_from ∅ l.

(** [Series.unique()]: the distinct values in order of first appearance. *)
Fixpoint unique_from (seen : gset string) (l : list string) : list string :=
  match l with
  | [] => []
  | x :: l' =>
      if bool_decide (x ∈ seen) then unique_from seen l'
      else x :: unique_from ({[x]} ∪ seen) l'
  end.

Definition unique (l : list string) : list string := unique_from ∅ l.

(** [Series.isin(values)] *)
Definition isin (l values : list string) : list bool :=
  map (fun x => bool_decide (x ∈ values)) l.

(** [df[mask]] for a boolean mask aligned with the rows *)
Fixpoint select {A : Type} (rows : list A) (mask : list bool) : list A :=
  match rows, mask with
  | r :: rows', b :: mask' =>
      if b then r :: select rows' mask' else select rows' mask'
  | _, _ => []
  end.

(** [~mask] *)
Definition invert (mask : list bool) : list bool := map negb mask.

End Pandas.

(** ** The catalog *)

(** [SceneInfo = namedtuple('SceneInfo', 'sat_name absname name ext is_anno geometry')] *)
Record SceneInfo : Type := {
  sat_name : string;
  absname : string;
  name : string;
  ext : string;
  is_anno : bool;
  geometry : Shapely.Polygon
}.

(** A row of [self.gdf].  The columns [region] and [is_infer] are not set
    by the catalog builder; the operations that read them work on a table
    to which they have been added. *)
Record Row : Type := {
  scene :> SceneInfo;
  region : string;
  is_infer : bool
}.

Definition names (gdf : list Row) : list string := map (fun r : Row => name r) gdf.

(** ** The world outside: rasters and files *)

(** What [gdal] and [SIALibs.dataset.util.coordinate_ops] provide. *)
Class Gdal : Type := {
  raster : Type;
  gdal_Open : string -> option raster;
  RasterXSize : raster -> Z;
  RasterYSize : raster -> Z;
  coord_transform : Type;
  geo_transform : Type;
  get_transform : raster -> coord_transform * geo_transform;
  (** one pixel through the affine transform and the reprojection, to a
      (latitude, longitude) pair *)
  ras_to_geo : geo_transform -> coord_transform -> Z * Z -> float * float
}.

(** Modelled from the spec: [coordinate_ops.cvt_ras_to_geo] is not part of
    the sources; the spec has it yield, for each pixel coordinate, one
    geographic (lat, lon) pair through the affine transform and the
    reprojection. *)
Definition cvt_ras_to_geo `{Gdal} (raster_list : list (Z * Z))
  (gt : geo_transform) (ct : coord_transform) : list (float * float) :=
  map (ras_to_geo gt ct) raster_list.

(** The file system: [os.walk(d, followlinks=True)], [os.path.exists],
    [os.makedirs(p, exist_ok=True)], [shutil.move] and [shutil.copytree]. *)
Class FileSystem : Type := {
  fs : Type;
  os_walk : string -> fs -> list (string * list string * list string);
  os_path_exists : string -> fs -> bool;
  os_makedirs : string -> M fs unit;
  shutil_move : string -> string -> M fs unit;
  shutil_copytree : string -> string -> M fs unit
}.

(** ** [SceneMgr.__init__]: building the catalog *)

Section Build.

Context `{Gdal} `{FileSystem}.
Import PyStr OsPath.

(** [[os.path.join(root, name) for root, dirs, files in os.walk(d)
      for name in files if name.lower().endswith(img_ext)]] *)
Definition image_paths (disk : fs) (d : string) (img_ext : list string)
  : list string :=
  flat_map (fun '(root, dirs, files) =>
              map (join root)
                  (List.filter (fun name => endswith_any (lower name) img_ext) files))
           (os_walk d disk).

(** [if suffix: paths = [path for path in paths
      if os.path.splitext(path)[0].lower().endswith(suffix)]] *)
Definition filter_suffix (suffix : option string) (paths : list string)
  : list string :=
  match suffix with
  | Some sfx =>
      if negb (String.eqb sfx "")
      then List.filter (fun path => endswith (lower (fst (splitext path))) sfx) paths
      else paths
  | None => paths
  end.

Definition kept_paths (disk : fs) (d : string) (suffix : option string)
  (img_ext : list string) : list string :=
  filter_suffix suffix (image_paths disk d img_ext).

Definition raster_list (width height : Z) : list (Z * Z) :=
  [(0, 0); (width, 0); (width, height); (0, height)].

(** Lines 51 to 57: the footprint polygon of an opened raster. *)
Definition footprint (r : raster) : result Shapely.Polygon :=
  let width := RasterXSize r in
  let height := RasterYSize r in
  let '(coord_transform, geo_transform) := get_transform r in
  let geo_pts := cvt_ras_to_geo (raster_list width height) geo_transform coord_transform in
  let geo_pts := map (fun x => (snd x, fst x)) geo_pts in
  Shapely.mkPolygon geo_pts.

(** One of the points that the polygon is made of: a pixel corner through
    the transform, swapped to (longitude, latitude). *)
Definition geo_corner (r : raster) (p : Z * Z) : Shapely.point :=
  let '(coord_transform, geo_transform) := get_transform r in
  let x := ras_to_geo geo_transform coord_transform p in
  (snd x, fst x).

(** The [SceneInfo] made for a path whose raster has been opened; the
    one step that can raise is the making of the polygon (line 57). *)
Definition scene_info (disk : fs) (path : string) (r : raster) : result SceneInfo :=
  let sat_name := _get_satellite_name path in
  let is_anno := os_path_exists (fst (splitext path) +:+ ".label") disk in
  match footprint r with
  | Raise e => Raise e
  | Ok poly =>
      let '(name, ext) := splitext (basename path) in
      Ok {| sat_name := sat_name; absname := path; name := name; ext := ext;
            is_anno := is_anno; geometry := poly |}
  end.

(** The body of [for path in tqdm(paths)]: the accumulator is
    [scene_infos], the state is what has been printed.  A raster that
    cannot be opened is reported and passed over ([continue]); an
    exception of the polygon is not caught. *)
Definition scan_path (disk : fs) (path : string) (scene_infos : list SceneInfo)
  : M (list string) (list SceneInfo) :=
  fun printed =>
    match gdal_Open path with
    | None => (Ok scene_infos, printed ++ ["Can not open " +:+ path])
    | Some raster =>
        match scene_info disk path raster with
        | Ok info => (Ok (scene_infos ++ [info]), printed)
        | Raise e => (Raise e, printed)
        end
    end.

Definition scan_paths (disk : fs) (paths : list string) (scene_infos : list SceneInfo)
  : M (list string) (list SceneInfo) :=
  for_each paths (scan_path disk) scene_infos.

(** [SceneMgr(dirs, name_suffixes=..., img_ext=...)], the branch
    [if dirs:] of [__init__]: the rows of [self.gdf], or the exception
    that ends the construction, and the diagnostics printed on the way. *)
Definition build (disk : fs) (dirs : list string)
  (name_suffixes : list (option string)) (img_ext : list string)
  : result (list SceneInfo) * list string :=
  for_each (zip dirs name_suffixes)
    (fun '(d, suffix) scene_infos =>
       scan_paths disk (kept_paths disk d suffix img_ext) scene_infos)
    [] [].

(** The records made for the paths that open and whose polygon can be
    made, and the diagnostics printed for the paths that do not open. *)
Definition records_of (disk : fs) (paths : list string) : list SceneInfo :=
  flat_map (fun path => match gdal_Open path with
                        | Some r => match scene_info disk path r with
                                    | Ok info => [info]
                                    | Raise _ => []
                                    end
                        | None => []
                        end) paths.

(** The paths at which the build cannot fail: those that do not open, and
    those whose polygon can be made. *)
Definition builds (path : string) : bool :=
  match gdal_Open path with
  | Some r => match footprint r with Ok _ => true | Raise _ => false end
  | None => true
  end.

Definition diagnostics_of (paths : list string) : list string :=
  flat_map (fun path => match gdal_Open path with
                        | Some _ => []
                        | None => ["Can not open " +:+ path]
                        end) paths.

(** All the paths that the build goes through, in order. *)
Definition all_kept_paths (disk : fs) (dirs : list string)
  (name_suffixes : list (option string)) (img_ext : list string) : list string :=
  flat_map (fun '(d, suffix) => kept_paths disk d suffix img_ext)
           (zip dirs name_suffixes).

End Build.

(** The rule of the spec for keeping a discovered file, word for word: the
    extension of the file name, compared without regard to case, is in the
    allow-list, and the file name without its extension, compared without
    regard to case, ends with the suffix when one is set. *)
Definition spec_keeps_file (img_ext : list string) (suffix : option string)
  (filename : string) : bool :=
  let '(stem, dot_ext) := OsPath.splitext filename in
  existsb (fun e => String.eqb (PyStr.lower dot_ext) ("." +:+ PyStr.lower e)) img_ext
  && match suffix with
     | Some sfx => PyStr.endswith (PyStr.lower stem) (PyStr.lower sfx)
     | None => true
     end.

(** ** Duplicates *)

(** [SceneMgr.duplicated] *)
Definition duplicated (gdf : list Row) : list Row :=
  Pandas.select gdf (Pandas.duplicated (names gdf)).

(** [SceneMgr.exclude_duplicated]; the new value of [self.gdf].  The test
    [if scene_mgr:] is the truth value of the other manager, which has a
    [__len__]: an empty one counts as absent. *)
Definition exclude_duplicated (gdf : list Row) (scene_mgr : option (list Row))
  : list Row :=
  match scene_mgr with
  | Some other =>
      if negb (length other =? 0)%nat
      then Pandas.select gdf (Pandas.invert (Pandas.isin (names gdf) (names other)))
      else Pandas.select gdf (Pandas.invert (Pandas.duplicated (names gdf)))
  | None => Pandas.select gdf (Pandas.invert (Pandas.duplicated (names gdf)))
  end.

(** ** The stratified splits *)

Definition lift {S A : Type} (r : result A) : M S A := fun s => (r, s).

(** [self.gdf[self.gdf.region == region]] *)
Definition region_df (gdf : list Row) (reg : string) : list Row :=
  List.filter (fun r => String.eqb (region r) reg) gdf.

(** [region_df[region_df.sat_name == sat_name]] *)
Definition sat_name_df (rdf : list Row) (sat : string) : list Row :=
  List.filter (fun r : Row => String.eqb (sat_name r) sat) rdf.

Definition regions (gdf : list Row) : list string :=
  Pandas.unique (map region gdf).

Definition sat_names (gdf : list Row) : list string :=
  Pandas.unique (map (fun r : Row => sat_name r) gdf).

Section Splits.

Context `{PyRandom}.

(** The body of the inner loop of [split_train_and_test]. *)
Definition split_group (test_file_ratio : float) (filenames : list string)
  (acc : list string * list string) : M rng_state (list string * list string) :=
  let '(train_filenames, test_filenames) := acc in
  _ <- Random.set_seed 42 ;;
  filenames <- Random.shuffle filenames ;;
  n_test_file <- lift (Py.round (Py.mul_int_float (Z.of_nat (length filenames))
                                                    test_file_ratio)) ;;
  let test_filenames := test_filenames ++ Py.slice_to n_test_file filenames in
  let train_filenames := train_filenames ++ Py.slice_from n_test_file filenames in
  ret (train_filenames, test_filenames).

(** [SceneMgr.split_train_and_test]: [(train_filenames, test_filenames)] *)
Definition split_train_and_test (gdf : list Row) (test_file_ratio : float)
  : M rng_state (list string * list string) :=
  for_each (regions gdf)
    (fun reg acc =>
       let rdf := region_df gdf reg in
       for_each (sat_names rdf)
         (fun sat acc =>
            split_group test_file_ratio (names (sat_name_df rdf sat)) acc)
         acc)
    ([], []).

Context `{FileSystem}.

Definition on_rng {A : Type} (m : M rng_state A) : M (rng_state * fs) A :=
  fun w => let '(a, s) := m (fst w) in (a, (s, snd w)).

Definition on_fs {A : Type} (m : M fs A) : M (rng_state * fs) A :=
  fun w => let '(a, d) := m (snd w) in (a, (fst w, d)).

(** The body of [for filename in tqdm(splited_filenames)]. *)
Definition transfer (is_move : bool) (dst_path filename : string) : M fs unit :=
  let src_dir := OsPath.dirname filename in
  let dst_dir :=
    OsPath.join dst_path (Py.str_slice_from (PyStr.rfind src_dir "scenes") src_dir) in
  fun disk =>
    if negb (os_path_exists dst_dir disk) then
      if is_move then shutil_move src_dir (OsPath.join dst_path dst_dir) disk
      else shutil_copytree src_dir (OsPath.join dst_path dst_dir) disk
    else (Ok tt, disk).

(** The argument [dst_paths] of [split_n]: a list of destinations, or
    one directory under which the destinations [0 .. n-1] are made. *)
Inductive dst_arg : Type :=
| DstList (dst_paths : list string)
| DstDir (dst_path : string).

Definition destinations (n : Z) (dst_paths : dst_arg) : list string :=
  match dst_paths with
  | DstList l => l
  | DstDir d => map (fun idx => OsPath.join d (Py.str idx)) (Py.range n)
  end.

(** [enumerate(tzip(splited_filenames_list, dst_paths))] *)
Definition assignments {A : Type} (splited_filenames_list : list (list A))
  (dst_paths : list string) : list (nat * (list A * string)) :=
  imap (fun idx p => (idx, p)) (zip splited_filenames_list dst_paths).

(** The body of [for idx, (splited_filenames, dst_path) in enumerate(...)]:
    what [split_n] does with one chunk and its destination. *)
Definition transfer_chunk (is_move : bool) (a : nat * (list string * string))
  (_ : unit) : M (rng_state * fs) unit :=
  let '(idx, (splited_filenames, dst_path)) := a in
  for_each splited_filenames
    (fun filename _ => on_fs (transfer is_move dst_path filename)) tt.

(** The body of the inner loop of [split_n]. *)
Definition split_n_group (n : Z) (dst_paths : list string) (is_move : bool)
  (filenames : list string) : M (rng_state * fs) unit :=
  _ <- on_rng (Random.set_seed 42) ;;
  filenames <- on_rng (Random.shuffle filenames) ;;
  splited_filenames_list <- lift (array_split filenames n) ;;
  for_each (assignments splited_filenames_list dst_paths)
    (transfer_chunk is_move) tt.

(** [if not isinstance(dst_paths, list): ... os.makedirs(dst_path, exist_ok=True)] *)
Definition make_destinations (n : Z) (dst_paths : dst_arg) : M (rng_state * fs) unit :=
  match dst_paths with
  | DstList _ => ret tt
  | DstDir _ =>
      for_each (destinations n dst_paths)
        (fun dst_path _ => on_fs (os_makedirs dst_path)) tt
  end.

(** [SceneMgr.split_n] *)
Definition split_n (gdf : list Row) (n : Z) (dst_paths : dst_arg) (is_move : bool)
  : M (rng_state * fs) unit :=
  _ <- make_destinations n dst_paths ;;
  for_each (regions gdf)
    (fun reg _ =>
       let rdf := region_df gdf reg in
       for_each (sat_names rdf)
         (fun sat _ =>
            split_n_group n (destinations n dst_paths) is_move
              (map (fun r : Row => absname r) (sat_name_df rdf sat)))
         tt)
    tt.

End Splits.

(** ** The map view *)

Definition SATELLITE_COLORS : gmap string string :=
  list_to_map
    [("WV3", "#F423E8"); ("WV2", "#66669C"); ("WV1", "#64be99");
     ("K3", "#FAAA1E"); ("K3A", "#DCDC00");
     ("SKYSAT", "#6B8E23"); ("PLANETSCOPE", "#3C14DC")].

(** [d[k]] on a [dict] *)
Definition getitem (d : gmap string string) (k : string) : result string :=
  match d !! k with
  | Some v => Ok v
  | None => Raise (KeyError k)
  end.

(** The keyword arguments of one [folium.Polygon(...)] added to the map. *)
Record FoliumPolygon : Type := {
  locations : list Shapely.point;
  color : string;
  weight : Z;
  fill : bool;
  fill_opacity : float;
  fill_color : string;
  tooltip : string
}.

Section MapView.

(** The two constant fragments of the legend template. *)
Variables template_frond template_end : string.

Definition tab : string := String (ascii_of_nat 9) EmptyString.

(** ["\t\t<li><span style='background:{};opacity:0.7;'></span>{}</li>".format(c, sat)] *)
Definition legend_line (c sat : string) : string :=
  tab +:+ tab +:+ "<li><span style='background:" +:+ c
      +:+ ";opacity:0.7;'></span>" +:+ sat +:+ "</li>".

(** One [legend.append(... .format(SATELLITE_COLORS[sat_name], sat_name))] *)
Definition legend_item (sat : string) (legend : list string) : result (list string) :=
  match getitem SATELLITE_COLORS sat with
  | Ok c => Ok (legend ++ [legend_line c sat])
  | Raise e => Raise e
  end.

(** [SceneMgr.get_legend]: the template of the macro element. *)
Definition get_legend (gdf : list Row) : result string :=
  match for_each_pure (sat_names gdf) legend_item [] with
  | Ok legend => Ok (template_frond +:+ String.concat "" legend +:+ template_end)
  | Raise e => Raise e
  end.

(** [folium.Polygon(locations=list(poly.exterior.coords), color=c, weight=2,
    fill=True, fill_opacity=0.1, fill_color=c, tooltip=name)] *)
Definition folium_polygon (c : string) (r : Row) : FoliumPolygon :=
  {| locations := Shapely.exterior_coords (geometry r);
     color := c; weight := 2; fill := true;
     fill_opacity := 0.1%float; fill_color := c;
     tooltip := name r |}.

(** One [folium.Polygon(...).add_to(m)] *)
Definition add_polygon (sat : string) (r : Row) (m : list FoliumPolygon)
  : result (list FoliumPolygon) :=
  match getitem SATELLITE_COLORS sat with
  | Ok c => Ok (m ++ [folium_polygon c r])
  | Raise e => Raise e
  end.

(** [SceneMgr.vis_on_map], up to the optional [m.save(out_path)]: the
    polygons on the map and its legend. *)
Definition vis_on_map (gdf : list Row) : result (list FoliumPolygon * string) :=
  match for_each_pure (sat_names gdf)
          (fun sat m => for_each_pure (sat_name_df gdf sat) (add_polygon sat) m) []
  with
  | Ok m =>
      match get_legend gdf with
      | Ok legend => Ok (m, legend)
      | Raise e => Raise e
      end
  | Raise e => Raise e
  end.

End MapView.

(** ** Reading the splits *)

(** The groups that the two nested loops of the splits go through: for each
    region in order of first appearance, for each satellite name of that
    region in order of first appearance, the rows of both. *)
Definition groups (gdf : list Row) : list (list Row) :=
  flat_map (fun reg => map (sat_name_df (region_df gdf reg))
                           (sat_names (region_df gdf reg)))
           (regions gdf).

(** [round(len(filenames) * test_file_ratio)] *)
Definition n_test_file_of (test_file_ratio : float) (filenames : list string)
  : result Z :=
  Py.round (Py.mul_int_float (Z.of_nat (length filenames)) test_file_ratio).

(** What [random.seed(42); random.shuffle(x)] leaves in [x], and the state
    of the generator afterwards. *)
Definition seeded_shuffle `{PyRandom} {A : Type} (x : list A) : list A :=
  match fst (Random.shuffle x (seed 42)) with
  | Ok x' => x'
  | Raise _ => x
  end.

Definition state_after_shuffle `{PyRandom} {A : Type} (x : list A) : rng_state :=
  snd (Random.shuffle x (seed 42)).

(** The rows whose column [key] is [k], and those whose column is one of
    [ks]. *)
Definition rows_with {R : Type} (key : R -> string) (k : string) (l : list R)
  : list R :=
  List.filter (fun r => String.eqb (key r) k) l.

Definition rows_among {R : Type} (key : R -> string) (ks : list string)
  (l : list R) : list R :=
  List.filter (fun r => bool_decide (key r ∈ ks)) l.

(** The loop nest of [split_train_and_test], as one loop over the groups. *)
Definition split_all `{PyRandom} (ratio : float) (gs : list (list Row))
  (acc : list string * list string) : M rng_state (list string * list string) :=
  for_each gs (fun g acc => split_group ratio (names g) acc) acc.

(** [round(len(g) * ratio)] is an integer for every group of the catalog:
    no product is a NaN or an infinity. *)
Definition is_ok {A : Type} (r : result A) : bool :=
  match r with Ok _ => true | Raise _ => false end.

Definition rounds_ok (ratio : float) (gdf : list Row) : bool :=
  forallb (fun g => is_ok (n_test_file_of ratio (names g))) (groups gdf).

(** What the split of one group sends to train and to test: the names
    before the slice position [n = round(len(g) * ratio)] of the shuffled
    group go to test, the others to train. *)
Definition group_split `{PyRandom} (ratio : float) (g : list Row)
  (part : list string * list string) : Prop :=
  exists n : Z,
    n_test_file_of ratio (names g) = Ok n
    /\ part = (Py.slice_from n (seeded_shuffle (names g)),
               Py.slice_to n (seeded_shuffle (names g)))
    /\ (0 <= n <= Z.of_nat (length g) ->
        snd part = take (Z.to_nat n) (seeded_shuffle (names g))
        /\ fst part = drop (Z.to_nat n) (seeded_shuffle (names g))
        /\ Z.of_nat (length (snd part)) = n)
    /\ fst part ++ snd part ≡ₚ names g
    /\ (NoDup (names g) -> forall x, x ∈ fst part -> x ∉ snd part).

(** A satellite name without a colour in the table. *)
Definition uncoloured (k : string) : Prop := SATELLITE_COLORS !! k = None.

(** ** Sample catalogs *)

Definition sample_row (sat path nm reg : string) : Row :=
  {| scene := {| sat_name := sat; absname := path; name := nm; ext := ".tif";
                 is_anno := false; geometry := {| Shapely.exterior_coords := [] |} |};
     region := reg; is_infer := false |}.

(** Two scenes named [x] under different directories, and one named [y]. *)
Definition scene_x_first : Row := sample_row "WV3" "/data/a/x.tif" "x" "seoul".
Definition scene_y : Row := sample_row "K3" "/data/a/y.tif" "y" "seoul".
Definition scene_x_again : Row := sample_row "WV3" "/data/b/x.tif" "x" "seoul".

Definition catalog_xyx : list Row := [scene_x_first; scene_y; scene_x_again].

(** Two scenes of one group that share the name [x]. *)
Definition catalog_xx : list Row := [scene_x_first; scene_x_again].

(** Ten scenes of one region and one satellite. *)
Definition catalog_ten : list Row :=
  map (fun n => sample_row "K3" ("/data/scenes/" +:+ n +:+ "/" +:+ n +:+ ".tif") n "busan")
      ["s0"; "s1"; "s2"; "s3"; "s4"; "s5"; "s6"; "s7"; "s8"; "s9"].

(** [has_name n] is the row test [row.name == n]. *)
Definition has_name (n : string) (r : Row) : bool := String.eqb (name r) n.

(** ** A sample world *)

(** A disk: the directories that exist, and what [os.walk] lists under a
    root. *)
Record disk : Type := {
  existing : gset string;
  listing : list (string * list (string * list string * list string))
}.

Definition sample_walk (d : string) (dk : disk)
  : list (string * list string * list string) :=
  match List.find (fun e => String.eqb (fst e) d) (listing dk) with
  | Some e => snd e
  | None => []
  end.

Definition sample_makedirs (p : string) : M disk unit :=
  fun dk => (Ok tt, {| existing := {[p]} ∪ existing dk; listing := listing dk |}).

Definition sample_move (src dst : string) : M disk unit :=
  fun dk =>
    if bool_decide (src ∈ existing dk)
    then (Ok tt, {| existing := {[dst]} ∪ (existing dk ∖ {[src]});
                    listing := listing dk |})
    else (Raise (OSError src), dk).

Definition sample_copytree (src dst : string) : M disk unit :=
  fun dk =>
    if bool_decide (src ∈ existing dk) && negb (bool_decide (dst ∈ existing dk))
    then (Ok tt, {| existing := {[dst]} ∪ existing dk; listing := listing dk |})
    else (Raise (OSError dst), dk).

#[export] Instance sample_fs : FileSystem := {|
  fs := disk;
  os_walk := sample_walk;
  os_path_exists := fun p dk => bool_decide (p ∈ existing dk);
  os_makedirs := sample_makedirs;
  shutil_move := sample_move;
  shutil_copytree := sample_copytree
|}.

(** The scene directories of [catalog_ten] exist, nothing else. *)
Definition disk_ten : disk :=
  {| existing := list_to_set (map (fun r : Row => OsPath.dirname (absname r)) catalog_ten);
     listing := [] |}.

(** Rasters: a width, a height and the six coefficients of a GDAL affine
    geotransform [(x0, dx, rx, y0, ry, dy)]; no reprojection. *)
Definition affine : Type := float * float * float * float * float * float.

Definition sample_ras_to_geo (gt : affine) (_ : unit) (p : Z * Z) : float * float :=
  let '(x0, dx, rx, y0, ry, dy) := gt in
  let px := Py.float_of_int (fst p) in
  let py := Py.float_of_int (snd p) in
  let x := (x0 + px * dx + py * rx)%float in
  let y := (y0 + px * ry + py * dy)%float in
  (y, x).

(** The files that open: a georeferenced scene of 100 by 50 pixels, a
    scene whose geotransform has an infinite origin, a scene whose
    geotransform has a pixel size of zero, and a scene whose geotransform
    has a NaN as origin.  No other file opens. *)
Definition sample_open (path : string) : option (Z * Z * affine) :=
  if String.eqb path "/data/scenes/a/a_k3.tif"
  then Some (100, 50, (127, 0.5, 0, 37.5, 0, -0.5)%float)
  else if String.eqb path "/data/scenes/inf/far.tif"
  then Some (10, 10, (infinity, 1, 0, 0, 0, -1)%float)
  else if String.eqb path "/data/scenes/flat/flat.tif"
  then Some (10, 10, (127, 0, 0, 37.5, 0, 0)%float)
  else if String.eqb path "/data/void/void.tif"
  then Some (10, 10, (nan, 1, 0, 0, 0, -1)%float)
  else None.

#[export] Instance sample_gdal : Gdal := {|
  raster := Z * Z * affine;
  gdal_Open := sample_open;
  RasterXSize := fun r => fst (fst r);
  RasterYSize := fun r => snd (fst r);
  coord_transform := unit;
  geo_transform := affine;
  get_transform := fun r => (tt, snd r);
  ras_to_geo := sample_ras_to_geo
|}.

Definition disk_scenes : disk :=
  {| existing := {[ "/data/scenes/a/a_k3.label" ]};
     listing :=
       [("/data/scenes",
         [("/data/scenes", ["a"; "b"; "inf"; "flat"], []);
          ("/data/scenes/a", [], ["a_k3.tif"; "a_k3.label"; "notes.txt"]);
          ("/data/scenes/b", [], ["broken.TIF"]);
          ("/data/scenes/inf", [], ["far.tif"; "mytif"]);
          ("/data/scenes/flat", [], ["flat.tif"])])] |}.

(** A directory with a file that does not open, a scene whose first
    corner has no longitude, and a georeferenced scene after it. *)
Definition disk_void : disk :=
  {| existing := ∅;
     listing :=
       [("/data/void",
         [("/data/void", [], ["broken.tif"; "void.tif"]);
          ("/data/scenes/a", [], ["a_k3.tif"])])] |}.

(** ** The other operations of [SceneMgr] *)

(** [SceneMgr.__len__]: [self.gdf.shape[0]] *)
Definition len (gdf : list Row) : nat := length gdf.

(** [SceneMgr.not_annotated]: [self.gdf[self.gdf.is_anno == False]] *)
Definition not_annotated (gdf : list Row) : list Row :=
  List.filter (fun r : Row => Bool.eqb (is_anno r) false) gdf.

(** [SceneMgr.counts_by_annotated]: [self.gdf[self.gdf.is_anno == True].shape[0]] *)
Definition counts_by_annotated (gdf : list Row) : nat :=
  length (List.filter (fun r : Row => Bool.eqb (is_anno r) true) gdf).

(** [SceneMgr.counts_by_inferenced]: [self.gdf[self.gdf.is_infer == True].shape[0]] *)
Definition counts_by_inferenced (gdf : list Row) : nat :=
  length (List.filter (fun r : Row => Bool.eqb (is_infer r) true) gdf).

(** [SceneMgr.get_not_inferenced]: the table of the new manager,
    [self.gdf[self.gdf.is_infer == False]]. *)
Definition get_not_inferenced (gdf : list Row) : list Row :=
  List.filter (fun r : Row => Bool.eqb (is_infer r) false) gdf.

(** [SceneMgr.get_absname]: [self.gdf[self.gdf.name == name].absname.values[0]].
    [None] stands for the [IndexError] that the subscript [[0]] raises on an
    empty selection. *)
Definition get_absname (gdf : list Row) (n : string) : option string :=
  match List.filter (has_name n) gdf with
  | [] => None
  | r :: _ => Some (absname r)
  end.

(** [df.groupby(key).size().reset_index(name='counts')]: one row for each
    value of the column, in ascending order of the values, with the number
    of rows that have it. *)
Definition group_sizes {R : Type} (key : R -> string) (df : list R)
  : list (string * nat) :=
  map (fun k => (k, length (rows_with key k df)))
      (merge_sort String.le (Pandas.unique (map key df))).

(** [SceneMgr.counts_by_regions] and [SceneMgr.counts_by_sat_names]: the
    table that is styled or plotted. *)
Definition counts_by_regions (gdf : list Row) (is_only_anno : bool)
  : list (string * nat) :=
  let df := if is_only_anno
            then List.filter (fun r : Row => Bool.eqb (is_anno r) true) gdf
            else gdf in
  group_sizes region df.

Definition counts_by_sat_names (gdf : list Row) : list (string * nat) :=
  group_sizes (fun r : Row => sat_name r) gdf.

(** [src_dir[src_dir.rfind('scenes'):]], the part of a source directory
    that is kept under a destination. *)
Definition from_scenes (src_dir : string) : string :=
  Py.str_slice_from (PyStr.rfind src_dir "scenes") src_dir.

Section FileOperations.

Context `{FileSystem}.

(** [SceneMgr.move_duplicated] *)
Definition move_duplicated (gdf : list Row) (dst_dir : string) : M fs unit :=
  let duplicated_paths := map (fun r : Row => absname r) (duplicated gdf) in
  for_each duplicated_paths
    (fun path _ => shutil_move (OsPath.dirname path) dst_dir) tt.

(** [SceneMgr.copy_scenes] *)
Definition copy_scenes (gdf : list Row) (dst_dir : string) : M fs unit :=
  let paths := Pandas.unique (map (fun r : Row => absname r) gdf) in
  for_each paths
    (fun path _ =>
       let src_path := OsPath.dirname path in
       let dst_path := OsPath.join dst_dir (from_scenes src_path) in
       shutil_copytree src_path dst_path) tt.

(** [shutil.copy(src, dst)] *)
Variable shutil_copy : string -> string -> M fs unit.

(** [SceneMgr.copy_labels] *)
Definition copy_labels (gdf : list Row) (dst_dir : string) : M fs unit :=
  let paths := map (fun r : Row => absname r) gdf in
  for_each paths
    (fun path _ =>
       let path := fst (OsPath.splitext path) +:+ ".label" in
       fun disk =>
         if os_path_exists path disk then shutil_copy path dst_dir disk
         else (Ok tt, disk)) tt.

End FileOperations.

(** ** More sample data *)

(** The catalog built from [disk_scenes], with the two columns that the
    builder does not set. *)
Definition catalog_scenes : list Row :=
  map (fun s => {| scene := s; region := "seoul"; is_infer := false |})
      (match fst (build disk_scenes ["/data/scenes"] [None] ["jp2"; "tif"]) with
       | Ok scene_infos => scene_infos
       | Raise _ => []
       end).

(** [shutil.copy(src, dst)] on a sample disk: the file lands in the
    directory [dst] under its own name. *)
Definition sample_copy (src dst : string) : M disk unit :=
  fun dk =>
    if bool_decide (src ∈ existing dk)
    then (Ok tt, {| existing := {[OsPath.join dst (OsPath.basename src)]} ∪ existing dk;
                    listing := listing dk |})
    else (Raise (OSError src), dk).

(** Two scenes of different directories that end alike from [scenes] on. *)
Definition catalog_alike : list Row :=
  [sample_row "WV3" "/data/scenes/a/x.tif" "x" "seoul";
   sample_row "K3" "/backup/scenes/a/y.tif" "y" "seoul"].

Definition disk_alike : disk :=
  {| existing := {[ "/data/scenes/a"; "/backup/scenes/a" ]}; listing := [] |}.

(** * Properties *)

Section StringFacts.

Import PyStr.

Lemma startswith_spec (s p : string) :
  startswith s p = true <-> exists post, s = p +:+ post.
Proof.
  unfold startswith. revert s.
  induction p as [|c p IH]; intros s.
  - split; [intros _; exists s; reflexivity | intros _; destruct s; reflexivity].
  - destruct s as [|d s]; cbn [String.prefix String.append].
    + split; [discriminate | intros [post H]; discriminate].
    + destruct (Ascii.ascii_dec c d) as [->|Hne].
      * rewrite IH. split; intros [post H]; exists post; [rewrite H; reflexivity|].
        injection H as H. exact H.
      * split; [discriminate | intros [post H]; inversion H; congruence].
Qed.

Lemma occurs_at_nonneg s sub i : occurs_at s sub i -> 0 <= i.
Proof. intros (pre & post & _ & <-). lia. Qed.

Lemma occurs_at_zero s sub : occurs_at s sub 0 <-> startswith s sub = true.
Proof.
  rewrite startswith_spec. split.
  - intros (pre & post & -> & Hlen). destruct pre; [|simpl in Hlen; lia].
    exists post. reflexivity.
  - intros [post ->]. exists "", post. split; reflexivity.
Qed.

Lemma occurs_at_empty sub i : occurs_at "" sub i -> i = 0.
Proof.
  intros (pre & post & Hs & <-). destruct pre; [reflexivity | discriminate].
Qed.

Lemma occurs_at_cons c s sub i :
  occurs_at (String c s) sub i <->
  (i = 0 /\ startswith (String c s) sub = true) \/ occurs_at s sub (i - 1).
Proof.
  split.
  - intros (pre & post & Hs & Hlen). destruct pre as [|d pre].
    + left. split; [simpl in Hlen; lia|].
      apply startswith_spec. exists post. exact Hs.
    + right. injection Hs as -> ->.
      exists pre, post. split; [reflexivity | simpl in Hlen; lia].
  - intros [[-> H] | (pre & post & -> & Hlen)].
    + apply occurs_at_zero. exact H.
    + exists (String c pre), post. split; [reflexivity | simpl; lia].
Qed.

(** The scan returns the running answer when nothing is found in the rest
    of the string, and otherwise the rightmost occurrence in the rest,
    shifted by the current position. *)
Lemma rfind_from_spec s sub : forall i found,
  (rfind_from i found s sub = found /\ forall k, ~ occurs_at s sub k)
  \/ (exists k, rfind_from i found s sub = i + k /\ occurs_at s sub k
                /\ forall k', occurs_at s sub k' -> k' <= k).
Proof.
  induction s as [|c s IH]; intros i found.
  - cbn [rfind_from]. destruct (startswith "" sub) eqn:E.
    + right. exists 0. split; [lia|]. split; [apply occurs_at_zero; exact E|].
      intros k' Hk'. apply occurs_at_empty in Hk'. lia.
    + left. split; [reflexivity|]. intros k Hk.
      pose proof (occurs_at_empty _ _ Hk) as ->.
      apply occurs_at_zero in Hk. congruence.
  - cbn [rfind_from].
    destruct (IH (i + 1) (if startswith (String c s) sub then i else found))
      as [[Hr Hno] | (k & Hr & Hocc & Hmax)].
    + rewrite Hr. destruct (startswith (String c s) sub) eqn:E.
      * right. exists 0. split; [lia|]. split; [apply occurs_at_zero; exact E|].
        intros k' Hk'. apply occurs_at_cons in Hk' as [[-> _] | Hk']; [lia|].
        exfalso. exact (Hno _ Hk').
      * left. split; [reflexivity|]. intros k Hk.
        apply occurs_at_cons in Hk as [[_ Hk] | Hk]; [congruence|].
        exact (Hno _ Hk).
    + right. exists (k + 1). split; [lia|]. split.
      * apply occurs_at_cons. right. replace (k + 1 - 1) with k by lia. exact Hocc.
      * intros k' Hk'. apply occurs_at_cons in Hk' as [[-> _] | Hk'].
        -- pose proof (occurs_at_nonneg _ _ _ Hocc). lia.
        -- specialize (Hmax _ Hk'). lia.
Qed.

Lemma rfind_rightmost s sub : rightmost_index s sub (rfind s sub).
Proof.
  unfold rfind, rightmost_index.
  destruct (rfind_from_spec s sub 0 (-1)) as [[Hr Hno] | (k & Hr & Hocc & Hmax)].
  - left. split; assumption.
  - right. rewrite Hr. pose proof (occurs_at_nonneg _ _ _ Hocc).
    replace (0 + k) with k by lia. repeat split; [lia | exact Hocc | exact Hmax].
Qed.

End StringFacts.

Section ArgmaxFacts.

Import Np.

(** Invariant of the [argmax] scan: [pre] is the part already seen, of
    which [b], at index [bi], is the first maximum. *)
Lemma argmax_from_spec (l : list Z) : forall (pre : list Z) (bi : nat) (b : Z),
  pre !! bi = Some b ->
  (forall j x, pre !! j = Some x -> x <= b) ->
  (forall j x, (j < bi)%nat -> pre !! j = Some x -> x < b) ->
  exists m, (pre ++ l) !! argmax_from bi b (length pre) l = Some m
    /\ (forall j x, (pre ++ l) !! j = Some x -> x <= m)
    /\ (forall j x, (j < argmax_from bi b (length pre) l)%nat ->
                    (pre ++ l) !! j = Some x -> x < m).
Proof.
  induction l as [|x l IH]; intros pre bi b Hb Hle Hlt.
  - rewrite app_nil_r. exists b. auto.
  - cbn [argmax_from].
    replace (pre ++ x :: l) with ((pre ++ [x]) ++ l) by (rewrite <- app_assoc; reflexivity).
    replace (S (length pre)) with (length (pre ++ [x])) by (rewrite length_app; simpl; lia).
    destruct (Z.ltb_spec b x) as [Hbx | Hbx]; apply IH.
    + rewrite lookup_app_r by lia. rewrite Nat.sub_diag. reflexivity.
    + intros j y Hj. apply lookup_app_Some in Hj as [Hj | [_ Hj]].
      * specialize (Hle _ _ Hj). lia.
      * apply list_lookup_singleton_Some in Hj as [_ ->]. lia.
    + intros j y Hjlt Hj. rewrite lookup_app_l in Hj by exact Hjlt.
      specialize (Hle _ _ Hj). lia.
    + rewrite lookup_app_l by (apply lookup_lt_Some in Hb; exact Hb). exact Hb.
    + intros j y Hj. apply lookup_app_Some in Hj as [Hj | [_ Hj]].
      * exact (Hle _ _ Hj).
      * apply list_lookup_singleton_Some in Hj as [_ ->]. lia.
    + intros j y Hjlt Hj. apply lookup_lt_Some in Hb.
      rewrite lookup_app_l in Hj by lia. exact (Hlt _ _ Hjlt Hj).
Qed.

(** On a non-empty list [argmax] is the position of the first maximum. *)
Lemma argmax_first_max (l : list Z) :
  l <> [] ->
  exists m, l !! argmax l = Some m
    /\ (forall j x, l !! j = Some x -> x <= m)
    /\ (forall j x, (j < argmax l)%nat -> l !! j = Some x -> x < m).
Proof.
  destruct l as [|x l]; [congruence | intros _].
  apply (argmax_from_spec l [x] 0%nat x).
  - reflexivity.
  - intros j y Hj. apply list_lookup_singleton_Some in Hj as [_ ->]. lia.
  - intros j y Hj. lia.
Qed.

End ArgmaxFacts.

Section Resolver.

Import PyStr.

Lemma sat_match_indices_lookup path k name :
  SATELLITE_NAMES !! k = Some name ->
  sat_match_indices_of path !! k = Some (rfind (upper path) name).
Proof.
  intros H. unfold sat_match_indices_of.
  rewrite list_lookup_fmap, H. reflexivity.
Qed.

Lemma sat_match_indices_length path :
  length (sat_match_indices_of path) = length SATELLITE_NAMES.
Proof. unfold sat_match_indices_of. apply length_map. Qed.

(** C2: the resolver upper-cases the path, takes for each entry of
    [SATELLITE_NAMES] the rightmost index at which it occurs ([-1] when
    it does not occur), and returns the entry with the greatest index,
    the earliest such entry on a tie; when every index is [-1] it
    returns UNKNOWN.  On [.../K3A/WV3_scene/img_K3.tif] it returns K3. *)
Theorem get_satellite_name_rightmost (path : string) :
  (forall k name, SATELLITE_NAMES !! k = Some name ->
     exists r, sat_match_indices_of path !! k = Some r
               /\ rightmost_index (upper path) name r)
  /\ ((forall k r, sat_match_indices_of path !! k = Some r -> r = -1) ->
      _get_satellite_name path = "UNKNOWN")
  /\ ((exists k r, sat_match_indices_of path !! k = Some r /\ r <> -1) ->
      exists k name r,
        SATELLITE_NAMES !! k = Some name
        /\ sat_match_indices_of path !! k = Some r
        /\ r <> -1
        /\ _get_satellite_name path = name
        /\ (forall j r', sat_match_indices_of path !! j = Some r' -> r' <= r)
        /\ (forall j r', (j < k)%nat ->
              sat_match_indices_of path !! j = Some r' -> r' < r))
  /\ _get_satellite_name ".../K3A/WV3_scene/img_K3.tif" = "K3".
Proof.
  assert (Hne : sat_match_indices_of path <> []).
  { intros E. apply (f_equal length) in E.
    rewrite sat_match_indices_length in E. discriminate E. }
  destruct (argmax_first_max _ Hne) as (m & Hm & Hmax & Hfirst).
  split; [|split; [|split]].
  - intros k name Hk. exists (rfind (upper path) name). split.
    + apply sat_match_indices_lookup. exact Hk.
    + apply rfind_rightmost.
  - intros Hall. unfold _get_satellite_name.
    rewrite nth_lookup, Hm. cbn [default from_option id].
    rewrite (Hall _ _ Hm). reflexivity.
  - intros (k0 & r0 & Hk0 & Hr0).
    assert (Hm1 : m <> -1).
    { pose proof (Hmax _ _ Hk0) as Hle.
      assert (Hlow : forall j r, sat_match_indices_of path !! j = Some r -> -1 <= r).
      { intros j r Hj. unfold sat_match_indices_of in Hj.
        apply list_lookup_fmap_Some in Hj as (name & -> & _).
        destruct (rfind_rightmost (upper path) name) as [[-> _] | [H0 _]]; lia. }
      specialize (Hlow _ _ Hk0). lia. }
    pose proof (lookup_lt_Some _ _ _ Hm) as Hlt.
    rewrite sat_match_indices_length in Hlt.
    destruct (lookup_lt_is_Some_2 SATELLITE_NAMES _ Hlt) as [name Hname].
    exists (Np.argmax (sat_match_indices_of path)), name, m.
    repeat split; try assumption.
    unfold _get_satellite_name. rewrite !nth_lookup, Hm, Hname. cbn [default from_option id].
    destruct (Z.eqb_spec m (-1)); [contradiction | reflexivity].
  - vm_compute. reflexivity.
Qed.

(** Ties go to the earlier name: wherever [K3A] occurs, [K3] occurs at the
    same index, and [K3] comes first in the list. *)
Example tie_goes_to_earlier_name :
  sat_match_indices_of "/data/K3A/scene_01.tif" = [-1; -1; -1; 6; 6; -1; -1]
  /\ _get_satellite_name "/data/K3A/scene_01.tif" = "K3"
  /\ _get_satellite_name "/data/landsat/scene_01.tif" = "UNKNOWN".
Proof. vm_compute. repeat split; reflexivity. Qed.

End Resolver.

(** ** Duplicated names *)

Section Duplicates.

Lemma duplicated_from_length seen l :
  length (Pandas.duplicated_from seen l) = length l.
Proof. revert seen. induction l as [|x l IH]; intros seen; simpl; auto. Qed.

(** Scanning one more value: it is flagged when it is in the set of seen
    values or among the values scanned before it. *)
Lemma duplicated_from_snoc l : forall seen x,
  Pandas.duplicated_from seen (l ++ [x]) =
  Pandas.duplicated_from seen l ++ [bool_decide (x ∈ seen ∪ list_to_set l)].
Proof.
  induction l as [|y l IH]; intros seen x; simpl.
  - f_equal. apply bool_decide_ext. set_solver.
  - f_equal. rewrite IH. do 2 f_equal. apply bool_decide_ext. set_solver.
Qed.

Lemma series_duplicated_snoc l x :
  Pandas.duplicated (l ++ [x]) = Pandas.duplicated l ++ [bool_decide (x ∈ l)].
Proof.
  unfold Pandas.duplicated. rewrite duplicated_from_snoc. do 2 f_equal.
  apply bool_decide_ext. set_solver.
Qed.

Lemma select_snoc {A : Type} (rows : list A) (mask : list bool) r b :
  length rows = length mask ->
  Pandas.select (rows ++ [r]) (mask ++ [b]) =
  Pandas.select rows mask ++ (if b then [r] else []).
Proof.
  revert mask. induction rows as [|r0 rows IH]; intros [|b0 mask] Hlen;
    try discriminate Hlen.
  - destruct b; reflexivity.
  - simpl in Hlen. injection Hlen as Hlen. simpl.
    rewrite (IH mask Hlen). destruct b0; reflexivity.
Qed.

Lemma names_app gdf1 gdf2 : names (gdf1 ++ gdf2) = names gdf1 ++ names gdf2.
Proof. unfold names. apply map_app. Qed.

Lemma names_snoc gdf r : names (gdf ++ [r]) = names gdf ++ [name r].
Proof. apply names_app. Qed.

Lemma duplicated_snoc gdf r :
  duplicated (gdf ++ [r]) =
  duplicated gdf ++ (if bool_decide (name r ∈ names gdf) then [r] else []).
Proof.
  unfold duplicated. rewrite names_snoc, series_duplicated_snoc.
  apply select_snoc. unfold Pandas.duplicated.
  rewrite duplicated_from_length. unfold names. rewrite length_map. reflexivity.
Qed.

Lemma exclude_duplicated_snoc gdf r :
  exclude_duplicated (gdf ++ [r]) None =
  exclude_duplicated gdf None
    ++ (if bool_decide (name r ∈ names gdf) then [] else [r]).
Proof.
  unfold exclude_duplicated, Pandas.invert.
  rewrite names_snoc, series_duplicated_snoc, map_app. cbn [map].
  rewrite select_snoc.
  - destruct (bool_decide (name r ∈ names gdf)); reflexivity.
  - rewrite length_map. unfold Pandas.duplicated.
    rewrite duplicated_from_length. unfold names. rewrite length_map. reflexivity.
Qed.

Lemma count_occ_zero_iff (l : list string) (n : string) :
  count_occ string_dec l n = 0%nat <-> n ∉ l.
Proof. rewrite <- count_occ_not_In, list_elem_of_In. reflexivity. Qed.

Lemma duplicated_count gdf n :
  count_occ string_dec (names (duplicated gdf)) n =
  (count_occ string_dec (names gdf) n - 1)%nat.
Proof.
  induction gdf as [|r gdf IH] using rev_ind; [reflexivity|].
  rewrite duplicated_snoc, names_snoc, names_app, !count_occ_app, IH.
  case_bool_decide as Hin; cbn [names map count_occ app];
    destruct (string_dec (name r) n) as [E|E]; try lia.
  - rewrite E in Hin. apply list_elem_of_In, (count_occ_In string_dec) in Hin. lia.
  - rewrite E in Hin. apply count_occ_zero_iff in Hin. lia.
Qed.

(** C1, as the code has it: [duplicated()] returns the repeat occurrences
    only.  Going through the catalog in row order, a record is returned
    exactly when its name has already occurred at an earlier row; so of the
    [c] records that share a name the [c - 1] later ones are returned and
    the first one is not.  Every returned record does have a name that
    occurs more than once. *)
Theorem duplicated_returns_repeat_occurrences :
  duplicated [] = []
  /\ (forall (gdf : list Row) (r : Row),
        duplicated (gdf ++ [r]) =
        duplicated gdf ++ (if bool_decide (name r ∈ names gdf) then [r] else []))
  /\ (forall gdf n,
        count_occ string_dec (names (duplicated gdf)) n =
        (count_occ string_dec (names gdf) n - 1)%nat)
  /\ (forall (gdf : list Row) (r : Row),
        r ∈ duplicated gdf -> (1 < count_occ string_dec (names gdf) (name r))%nat).
Proof.
  split; [reflexivity|]. split; [exact duplicated_snoc|].
  split; [exact duplicated_count|].
  intros gdf r Hr.
  assert (Hn : name r ∈ names (duplicated gdf)).
  { unfold names. apply list_elem_of_fmap. exists r. split; [reflexivity | exact Hr]. }
  apply list_elem_of_In, (count_occ_In string_dec) in Hn.
  rewrite duplicated_count in Hn. lia.
Qed.

(** C1, as the spec has it, fails: in the catalog [x, y, x] the name [x]
    occurs twice, yet the first record named [x] is not returned; only the
    second one is. *)
Lemma duplicated_omits_first_occurrence :
  scene_x_first ∈ catalog_xyx
  /\ count_occ string_dec (names catalog_xyx) (name scene_x_first) = 2%nat
  /\ duplicated catalog_xyx = [scene_x_again]
  /\ scene_x_first ∉ duplicated catalog_xyx.
Proof.
  split; [apply list_elem_of_here|]. split; [reflexivity|].
  assert (E : duplicated catalog_xyx = [scene_x_again]) by (vm_compute; reflexivity).
  split; [exact E|]. rewrite E. intros Hin.
  apply list_elem_of_singleton in Hin. discriminate Hin.
Qed.

Lemma names_exclude_duplicated gdf n :
  n ∈ names (exclude_duplicated gdf None) <-> n ∈ names gdf.
Proof.
  induction gdf as [|r gdf IH] using rev_ind; [reflexivity|].
  rewrite exclude_duplicated_snoc, names_snoc, names_app, !elem_of_app, IH.
  case_bool_decide as Hin; cbn [names map].
  - rewrite list_elem_of_singleton. split; [intros [?|Hnil] | intros [?|Heq]]; auto.
    + inversion Hnil.
    + left. rewrite Heq. exact Hin.
  - rewrite list_elem_of_singleton. reflexivity.
Qed.

Lemma exclude_duplicated_NoDup gdf : NoDup (names (exclude_duplicated gdf None)).
Proof.
  induction gdf as [|r gdf IH] using rev_ind; [constructor|].
  rewrite exclude_duplicated_snoc, names_app.
  case_bool_decide as Hin; cbn [names map].
  - rewrite app_nil_r. exact IH.
  - apply NoDup_app. split; [exact IH|]. split; [|apply NoDup_singleton].
    intros n Hn Hn'. apply list_elem_of_singleton in Hn' as ->.
    apply (proj1 (names_exclude_duplicated _ _)) in Hn. contradiction.
Qed.

Lemma filter_has_name_nil gdf n :
  n ∉ names gdf -> List.filter (has_name n) gdf = [].
Proof.
  intros Hn. induction gdf as [|r gdf IH]; [reflexivity|].
  cbn [List.filter]. cbn [names map] in Hn. rewrite not_elem_of_cons in Hn.
  destruct Hn as [Hne Hn]. unfold has_name at 1.
  destruct (String.eqb_spec (name r) n); [congruence | auto].
Qed.

Lemma filter_has_name_cons gdf n :
  n ∈ names gdf -> exists r rest, List.filter (has_name n) gdf = r :: rest.
Proof.
  intros Hn. destruct (List.filter (has_name n) gdf) as [|r rest] eqn:E; [|eauto].
  exfalso. unfold names in Hn. apply list_elem_of_fmap in Hn as (r & -> & Hr).
  assert (Hin : In r (List.filter (has_name (name r)) gdf)).
  { apply filter_In. split; [apply list_elem_of_In; exact Hr|].
    unfold has_name. apply String.eqb_refl. }
  rewrite E in Hin. exact Hin.
Qed.

Lemma filter_has_name_one (r : Row) n :
  List.filter (has_name n) [r] = if String.eqb (name r) n then [r] else [].
Proof. reflexivity. Qed.

Lemma exclude_duplicated_first gdf n :
  List.filter (has_name n) (exclude_duplicated gdf None) =
  take 1 (List.filter (has_name n) gdf).
Proof.
  induction gdf as [|r gdf IH] using rev_ind; [reflexivity|].
  rewrite exclude_duplicated_snoc, !List.filter_app, IH, filter_has_name_one.
  case_bool_decide as Hin; destruct (String.eqb_spec (name r) n) as [E|E];
    rewrite ?filter_has_name_one; cbn [List.filter]; rewrite ?app_nil_r;
    try reflexivity.
  - rewrite E in Hin. destruct (filter_has_name_cons _ _ Hin) as (r0 & rest & ->).
    reflexivity.
  - destruct (String.eqb_spec (name r) n) as [_|Hne]; [|congruence].
    rewrite E in Hin. rewrite (filter_has_name_nil _ _ Hin). reflexivity.
  - destruct (String.eqb_spec (name r) n) as [Heq|_]; [congruence|].
    rewrite app_nil_r. reflexivity.
Qed.

Lemma exclude_duplicated_complement gdf :
  exclude_duplicated gdf None ++ duplicated gdf ≡ₚ gdf.
Proof.
  induction gdf as [|r gdf IH] using rev_ind; [reflexivity|].
  rewrite exclude_duplicated_snoc, duplicated_snoc.
  case_bool_decide as Hin.
  - rewrite app_nil_r, app_assoc, IH. reflexivity.
  - rewrite app_nil_r, <- app_assoc, (Permutation_app_comm [r]), app_assoc, IH.
    reflexivity.
Qed.

Lemma exclude_duplicated_sublist gdf : sublist (exclude_duplicated gdf None) gdf.
Proof.
  induction gdf as [|r gdf IH] using rev_ind; [constructor|].
  rewrite exclude_duplicated_snoc. case_bool_decide.
  - rewrite app_nil_r. apply sublist_inserts_r. exact IH.
  - apply sublist_app; [exact IH | reflexivity].
Qed.

(** C7: [exclude_duplicated()] without an argument keeps, for every name,
    the first record of that name in catalog order and nothing else: the
    names of what is left are pairwise different, every name of the catalog
    is still there, the records left under a name are that name's first
    record, and what has been removed is what [duplicated()] returns. The
    rows left are in their original order. *)
Theorem exclude_duplicated_keeps_first (gdf : list Row) :
  NoDup (names (exclude_duplicated gdf None))
  /\ (forall n, n ∈ names (exclude_duplicated gdf None) <-> n ∈ names gdf)
  /\ (forall n, List.filter (has_name n) (exclude_duplicated gdf None) =
                take 1 (List.filter (has_name n) gdf))
  /\ exclude_duplicated gdf None ++ duplicated gdf ≡ₚ gdf
  /\ sublist (exclude_duplicated gdf None) gdf
  /\ duplicated (exclude_duplicated gdf None) = [].
Proof.
  repeat split.
  - apply exclude_duplicated_NoDup.
  - apply names_exclude_duplicated.
  - apply names_exclude_duplicated.
  - apply exclude_duplicated_first.
  - apply exclude_duplicated_complement.
  - apply exclude_duplicated_sublist.
  - pose proof (exclude_duplicated_NoDup gdf) as Hnd.
    destruct (duplicated (exclude_duplicated gdf None)) as [|r rest] eqn:E;
      [reflexivity | exfalso].
    assert (Hr : r ∈ duplicated (exclude_duplicated gdf None))
      by (rewrite E; apply list_elem_of_here).
    assert (Hn : name r ∈ names (duplicated (exclude_duplicated gdf None))).
    { unfold names. apply list_elem_of_fmap. eauto. }
    apply list_elem_of_In, (count_occ_In string_dec) in Hn.
    rewrite duplicated_count in Hn.
    apply NoDup_ListNoDup in Hnd.
    pose proof (proj1 (List.NoDup_count_occ string_dec _) Hnd (name r)). lia.
Qed.

End Duplicates.

(** ** Lists: swapping, slicing, grouping *)

Section ListFacts.

Context {A : Type}.
Implicit Types (l x : list A).

Lemma insert_Permutation_delete l i (a b : A) :
  l !! i = Some a -> <[i:=b]> l ≡ₚ b :: delete i l.
Proof.
  revert i. induction l as [|h l IH]; intros [|i] Hi; try discriminate Hi.
  - reflexivity.
  - cbn in Hi |- *. rewrite (IH i Hi). apply Permutation_swap.
Qed.

Lemma swap_Permutation x i j : Py.swap x i j ≡ₚ x.
Proof.
  unfold Py.swap.
  destruct (x !! i) as [a|] eqn:Hi; [|reflexivity].
  destruct (x !! j) as [b|] eqn:Hj; [|reflexivity].
  revert i j Hi Hj. induction x as [|h x IH]; intros [|i] [|j] Hi Hj;
    try discriminate Hi; try discriminate Hj; cbn in Hi, Hj |- *.
  - injection Hi as ->. injection Hj as ->. reflexivity.
  - injection Hi as ->. rewrite (insert_Permutation_delete _ _ _ _ Hj).
    rewrite (delete_Permutation _ _ _ Hj) at 2. apply Permutation_swap.
  - injection Hj as ->. rewrite (insert_Permutation_delete _ _ _ _ Hi).
    rewrite (delete_Permutation _ _ _ Hi) at 2. apply Permutation_swap.
  - rewrite (IH i j Hi Hj). reflexivity.
Qed.

Lemma slice_bound_in_range n len :
  0 <= n <= Z.of_nat len -> Py.slice_bound n len = Z.to_nat n.
Proof.
  intros Hn. unfold Py.slice_bound.
  destruct (Z.ltb_spec n 0); [lia|]. f_equal. lia.
Qed.

Lemma slice_in_range (a b : nat) l :
  (a <= b <= length l)%nat ->
  Py.slice (Z.of_nat a) (Z.of_nat b) l = take (b - a) (drop a l).
Proof.
  intros Hab. unfold Py.slice.
  rewrite !slice_bound_in_range by lia. rewrite !Nat2Z.id. reflexivity.
Qed.

End ListFacts.

(** ** The monad and its loops *)

Section LoopFacts.

Context {S A B : Type}.

Lemma for_each_app (xs ys : list A) (body : A -> B -> M S B) acc s :
  for_each (xs ++ ys) body acc s =
  match for_each xs body acc s with
  | (Ok acc', s') => for_each ys body acc' s'
  | (Raise e, s') => (Raise e, s')
  end.
Proof.
  revert acc s. induction xs as [|x xs IH]; intros acc s; [reflexivity|].
  cbn [app for_each]. unfold bind.
  destruct (body x acc s) as [[acc'|e] s']; [apply IH | reflexivity].
Qed.

Lemma for_each_map {C : Type} (f : C -> A) (xs : list C) (body : A -> B -> M S B) acc s :
  for_each (map f xs) body acc s = for_each xs (fun x => body (f x)) acc s.
Proof.
  revert acc s. induction xs as [|x xs IH]; intros acc s; [reflexivity|].
  cbn [map for_each]. unfold bind.
  destruct (body (f x) acc s) as [[acc'|e] s']; [apply IH | reflexivity].
Qed.

Lemma for_each_flat_map {C : Type} (f : C -> list A) (xs : list C)
  (body : A -> B -> M S B) acc s :
  for_each (flat_map f xs) body acc s =
  for_each xs (fun x acc => for_each (f x) body acc) acc s.
Proof.
  revert acc s. induction xs as [|x xs IH]; intros acc s; [reflexivity|].
  cbn [flat_map for_each]. rewrite for_each_app. unfold bind.
  destruct (for_each (f x) body acc s) as [[acc'|e] s']; [apply IH | reflexivity].
Qed.

Lemma for_each_ext (xs : list A) (body body' : A -> B -> M S B) acc s :
  (forall x acc s, body x acc s = body' x acc s) ->
  for_each xs body acc s = for_each xs body' acc s.
Proof.
  intros Hext. revert acc s. induction xs as [|x xs IH]; intros acc s; [reflexivity|].
  cbn [for_each]. unfold bind. rewrite Hext.
  destruct (body' x acc s) as [[acc'|e] s']; [apply IH | reflexivity].
Qed.

End LoopFacts.

(** ** [random.shuffle] *)

Section ShuffleFacts.

Context `{PyRandom} {A : Type}.

Lemma shuffle_loop_ok (i : nat) : forall (x : list A) (s : rng_state),
  exists x' s', Random.shuffle_loop i x s = (Ok x', s') /\ x' ≡ₚ x.
Proof.
  induction i as [|i IH]; intros x s.
  - exists x, s. split; reflexivity.
  - cbn [Random.shuffle_loop]. unfold bind, Random.randbelow.
    destruct (_randbelow (S i + 1) s) as [j s1].
    destruct (IH (Py.swap x (S i) j) s1) as (x' & s' & Hrun & Hperm).
    exists x', s'. split; [exact Hrun|].
    rewrite Hperm. apply swap_Permutation.
Qed.

Lemma shuffle_ok (x : list A) (s : rng_state) :
  exists x' s', Random.shuffle x s = (Ok x', s') /\ x' ≡ₚ x.
Proof. apply shuffle_loop_ok. Qed.

(** The seeded shuffle is a rearrangement of the list. *)
Lemma seeded_shuffle_run (x : list A) :
  Random.shuffle x (seed 42) = (Ok (seeded_shuffle x), state_after_shuffle x).
Proof.
  unfold seeded_shuffle, state_after_shuffle.
  destruct (shuffle_ok x (seed 42)) as (x' & s' & -> & _). reflexivity.
Qed.

Lemma seeded_shuffle_Permutation (x : list A) : seeded_shuffle x ≡ₚ x.
Proof.
  unfold seeded_shuffle.
  destruct (shuffle_ok x (seed 42)) as (x' & s' & -> & Hp). exact Hp.
Qed.

Lemma seeded_shuffle_length (x : list A) : length (seeded_shuffle x) = length x.
Proof. apply Permutation_length, seeded_shuffle_Permutation. Qed.

End ShuffleFacts.

(** The generator of CPython is a generator in the sense of [PyRandom];
    its first output and its shuffle of [range(10)] after [seed(42)] are
    those of CPython. *)
Lemma randbelow_loop_lt (fuel : nat) (n : nat) (k : Z) (s : MT19937.state) :
  (0 < n)%nat -> (fst (MT19937.randbelow_loop fuel (Z.of_nat n) k s) < n)%nat.
Proof.
  intros Hn. revert s. induction fuel as [|fuel IH]; intros s;
    cbn [MT19937.randbelow_loop]; destruct (MT19937.getrandbits k s) as [r s'];
    destruct (Z.ltb_spec r (Z.of_nat n)); cbn [fst]; try lia.
  apply IH.
Qed.


#[export] Instance mersenne_twister : PyRandom := {|
  rng_state := MT19937.state;
  seed := MT19937.seed;
  _randbelow := MT19937.randbelow;
  _randbelow_lt := fun n s => randbelow_loop_lt 1000 n _ s
|}.

Example mt_first : fst (MT19937.genrand_uint32 (MT19937.seed 42)) = 2746317213.
Proof. vm_compute. reflexivity. Qed.

Example mt_shuffle10 :
  fst (Random.shuffle (map Z.of_nat (seq 0 10)) (seed 42)) = Ok [7;3;2;8;5;6;9;4;0;1].
Proof. vm_compute. reflexivity. Qed.

(** ** Grouping by a column *)

Section GroupFacts.

Lemma unique_from_spec (l : list string) : forall seen : gset string,
  NoDup (Pandas.unique_from seen l)
  /\ forall x, x ∈ Pandas.unique_from seen l <-> x ∈ l /\ x ∉ seen.
Proof.
  induction l as [|y l IH]; intros seen; cbn [Pandas.unique_from].
  - split; [constructor|]. intros x. rewrite elem_of_nil. tauto.
  - case_bool_decide as Hy.
    + destruct (IH seen) as [Hnd Hin]. split; [exact Hnd|].
      intros x. rewrite Hin, elem_of_cons. split; [tauto|].
      intros [[->|Hx] Hns]; [contradiction | tauto].
    + destruct (IH ({[y]} ∪ seen)) as [Hnd Hin]. split.
      * constructor; [|exact Hnd]. rewrite Hin. set_solver.
      * intros x. rewrite !elem_of_cons, Hin.
        destruct (decide (x = y)) as [->|Hne]; set_solver.
Qed.

Lemma unique_NoDup l : NoDup (Pandas.unique l).
Proof. apply unique_from_spec. Qed.

Lemma elem_of_unique l x : x ∈ Pandas.unique l <-> x ∈ l.
Proof.
  unfold Pandas.unique. destruct (unique_from_spec l ∅) as [_ ->]. set_solver.
Qed.

Context {R : Type} (key : R -> string).

Lemma rows_among_cons k ks l :
  k ∉ ks -> rows_with key k l ++ rows_among key ks l ≡ₚ rows_among key (k :: ks) l.
Proof.
  intros Hk. induction l as [|r l IH]; [reflexivity|].
  unfold rows_with, rows_among in *. cbn [List.filter].
  destruct (String.eqb_spec (key r) k) as [E|E].
  - rewrite (bool_decide_eq_false_2 (key r ∈ ks)) by (rewrite E; exact Hk).
    rewrite (bool_decide_eq_true_2 (key r ∈ k :: ks)) by (rewrite E; left).
    cbn [app]. rewrite IH. reflexivity.
  - destruct (decide (key r ∈ ks)) as [Hin|Hin].
    + rewrite (bool_decide_eq_true_2 _ Hin).
      rewrite (bool_decide_eq_true_2 (key r ∈ k :: ks)) by (right; exact Hin).
      rewrite <- Permutation_middle, IH. reflexivity.
    + rewrite (bool_decide_eq_false_2 _ Hin).
      rewrite (bool_decide_eq_false_2 (key r ∈ k :: ks))
        by (rewrite elem_of_cons; tauto).
      exact IH.
Qed.

Lemma concat_rows_with ks l :
  NoDup ks -> concat (map (fun k => rows_with key k l) ks) ≡ₚ rows_among key ks l.
Proof.
  induction 1 as [|k ks Hk Hnd IH].
  - cbn. unfold rows_among. induction l as [|r l IHl]; [reflexivity|].
    cbn [List.filter]. rewrite bool_decide_eq_false_2 by apply not_elem_of_nil.
    exact IHl.
  - cbn [map concat]. rewrite IH. apply rows_among_cons, Hk.
Qed.

Lemma rows_among_all ks l :
  (forall r, r ∈ l -> key r ∈ ks) -> rows_among key ks l = l.
Proof.
  intros Hall. induction l as [|r l IH]; [reflexivity|].
  unfold rows_among in *. cbn [List.filter].
  rewrite bool_decide_eq_true_2 by (apply Hall; left).
  f_equal. apply IH. intros r' Hr'. apply Hall. right. exact Hr'.
Qed.

(** Going through the distinct values of a column and taking the rows of
    each reaches every row once. *)
Lemma concat_by_unique l :
  concat (map (fun k => rows_with key k l) (Pandas.unique (map key l))) ≡ₚ l.
Proof.
  rewrite concat_rows_with by apply unique_NoDup.
  rewrite rows_among_all; [reflexivity|].
  intros r Hr. apply elem_of_unique, list_elem_of_fmap. eauto.
Qed.

End GroupFacts.

Lemma concat_groups (gdf : list Row) : concat (groups gdf) ≡ₚ gdf.
Proof.
  unfold groups.
  assert (Hreg : forall regs,
    concat (flat_map (fun reg => map (sat_name_df (region_df gdf reg))
                                      (sat_names (region_df gdf reg))) regs)
    ≡ₚ concat (map (region_df gdf) regs)).
  { induction regs as [|reg regs IH]; [reflexivity|].
    cbn [flat_map map concat]. rewrite concat_app, IH.
    apply Permutation_app_tail.
    exact (concat_by_unique (fun r : Row => sat_name r) (region_df gdf reg)). }
  rewrite Hreg. exact (concat_by_unique region gdf).
Qed.

(** The groups are the groups of the rows: one for every pair of a region
    and a satellite name that some row has, holding the rows with that
    pair. *)
Lemma elem_of_group (gdf : list Row) (reg sat : string) (r : Row) :
  r ∈ sat_name_df (region_df gdf reg) sat <->
  r ∈ gdf /\ region r = reg /\ sat_name r = sat.
Proof.
  unfold sat_name_df, region_df.
  rewrite list_elem_of_In, !filter_In, <- list_elem_of_In, !String.eqb_eq. tauto.
Qed.

Lemma elem_of_groups (gdf : list Row) (g : list Row) :
  g ∈ groups gdf <->
  exists r : Row, r ∈ gdf /\ g = sat_name_df (region_df gdf (region r)) (sat_name r).
Proof.
  unfold groups. rewrite list_elem_of_In, in_flat_map. split.
  - intros (reg & Hreg & Hg). apply in_map_iff in Hg as (sat & <- & Hsat).
    apply list_elem_of_In in Hsat. unfold sat_names in Hsat.
    apply elem_of_unique, list_elem_of_fmap in Hsat as (r & -> & Hr).
    apply list_elem_of_In, filter_In in Hr as [Hr Hreg'].
    apply String.eqb_eq in Hreg'. subst reg.
    exists r. split; [apply list_elem_of_In; exact Hr | reflexivity].
  - intros (r & Hr & ->). exists (region r). split.
    + apply list_elem_of_In. unfold regions.
      apply elem_of_unique, list_elem_of_fmap. eauto.
    + apply in_map, list_elem_of_In. unfold sat_names.
      apply elem_of_unique, list_elem_of_fmap. exists r. split; [reflexivity|].
      apply list_elem_of_In, filter_In.
      split; [apply list_elem_of_In; exact Hr | apply String.eqb_refl].
Qed.

Lemma names_concat (gs : list (list Row)) : names (concat gs) = concat (map names gs).
Proof.
  induction gs as [|g gs IH]; [reflexivity|].
  cbn [concat map]. rewrite names_app, IH. reflexivity.
Qed.

Lemma names_groups (gdf : list Row) : concat (map names (groups gdf)) ≡ₚ names gdf.
Proof.
  rewrite <- names_concat. unfold names. apply Permutation_map, concat_groups.
Qed.

(** ** The train and test split *)

Section TrainTest.

Context `{PyRandom}.

(** One group: the generator is re-seeded, so neither the result nor the
    state left behind depends on the state found. *)
Lemma split_group_run ratio (filenames train test : list string) (s : rng_state) :
  split_group ratio filenames (train, test) s =
  match n_test_file_of ratio filenames with
  | Ok n => (Ok (train ++ Py.slice_from n (seeded_shuffle filenames),
                 test ++ Py.slice_to n (seeded_shuffle filenames)),
             state_after_shuffle filenames)
  | Raise e => (Raise e, state_after_shuffle filenames)
  end.
Proof.
  unfold split_group, bind, Random.set_seed, lift, ret, n_test_file_of.
  rewrite seeded_shuffle_run, seeded_shuffle_length.
  destruct (Py.round _); reflexivity.
Qed.

Lemma split_train_and_test_groups gdf ratio s :
  split_train_and_test gdf ratio s = split_all ratio (groups gdf) ([], []) s.
Proof.
  unfold split_train_and_test, split_all, groups.
  rewrite for_each_flat_map. apply for_each_ext. intros reg acc s'.
  rewrite for_each_map. reflexivity.
Qed.

Lemma group_split_intro ratio (g : list Row) (n : Z) :
  n_test_file_of ratio (names g) = Ok n ->
  group_split ratio g (Py.slice_from n (seeded_shuffle (names g)),
                       Py.slice_to n (seeded_shuffle (names g))).
Proof.
  intros Hn. exists n. split; [exact Hn|]. split; [reflexivity|].
  pose proof (seeded_shuffle_Permutation (names g)) as Hperm.
  pose proof (seeded_shuffle_length (names g)) as Hlen.
  assert (Hg : length (names g) = length g) by (unfold names; apply length_map).
  cbn [fst snd]. unfold Py.slice_from, Py.slice_to. split; [|split].
  - intros Hrange. rewrite slice_bound_in_range by lia.
    repeat split. rewrite length_take. lia.
  - rewrite Permutation_app_comm, take_drop. exact Hperm.
  - intros Hnd x Hx Hx'.
    rewrite <- Hperm, <- (take_drop (Py.slice_bound n (length (seeded_shuffle (names g))))
                                    (seeded_shuffle (names g))) in Hnd.
    apply NoDup_app in Hnd as (_ & Hdisj & _). exact (Hdisj x Hx' Hx).
Qed.

Lemma split_all_spec ratio (gs : list (list Row)) :
  forallb (fun g => is_ok (n_test_file_of ratio (names g))) gs = true ->
  forall train0 test0 s,
  exists parts s',
    split_all ratio gs (train0, test0) s =
      (Ok (train0 ++ concat (map fst parts), test0 ++ concat (map snd parts)), s')
    /\ Forall2 (group_split ratio) gs parts.
Proof.
  induction gs as [|g gs IH]; intros Hok train0 test0 s.
  - exists [], s. cbn. rewrite !app_nil_r. split; [reflexivity | constructor].
  - cbn [forallb] in Hok. apply andb_prop in Hok as [Hg Hgs].
    destruct (n_test_file_of ratio (names g)) as [n|e] eqn:Hn; [|discriminate Hg].
    unfold split_all. cbn [for_each]. unfold bind.
    rewrite split_group_run, Hn.
    destruct (IH Hgs (train0 ++ Py.slice_from n (seeded_shuffle (names g)))
                     (test0 ++ Py.slice_to n (seeded_shuffle (names g)))
                     (state_after_shuffle (names g)))
      as (parts & s' & Hrun & Hparts).
    exists ((Py.slice_from n (seeded_shuffle (names g)),
             Py.slice_to n (seeded_shuffle (names g))) :: parts), s'.
    split.
    + unfold split_all in Hrun. rewrite Hrun. cbn [map concat fst snd].
      rewrite !app_assoc. reflexivity.
    + constructor; [apply group_split_intro; exact Hn | exact Hparts].
Qed.

Lemma parts_Permutation ratio (gs : list (list Row)) parts :
  Forall2 (group_split ratio) gs parts ->
  concat (map fst parts) ++ concat (map snd parts) ≡ₚ concat (map names gs).
Proof.
  induction 1 as [|g part gs parts Hg _ IH]; [reflexivity|].
  destruct Hg as (n & _ & _ & _ & Hperm & _).
  cbn [map concat]. rewrite <- Hperm, <- IH.
  rewrite <- !app_assoc. apply Permutation_app_head.
  rewrite !app_assoc. apply Permutation_app_tail, Permutation_app_comm.
Qed.

(** C5, as the code has it.  When [round(len(g) * ratio)] is an integer
    [n] for every (region, satellite) group [g], the split returns two
    lists made group by group, in the order of the loops: of the shuffled
    names of the group those before slice position [n] go to test and the
    others to train, which for [0 <= n <= len(g)] are the first [n] names
    and the remaining ones.  Train and test together hold every name of
    the catalog as often as the catalog has it.  Within a group whose
    names are pairwise different no name is in both halves. *)
Theorem split_train_and_test_partition (gdf : list Row) (ratio : float)
  (s : rng_state) :
  rounds_ok ratio gdf = true ->
  exists train test s' parts,
    split_train_and_test gdf ratio s = (Ok (train, test), s')
    /\ Forall2 (group_split ratio) (groups gdf) parts
    /\ train = concat (map fst parts)
    /\ test = concat (map snd parts)
    /\ train ++ test ≡ₚ names gdf.
Proof.
  intros Hok. rewrite split_train_and_test_groups.
  destruct (split_all_spec ratio (groups gdf) Hok [] [] s)
    as (parts & s' & Hrun & Hparts).
  exists (concat (map fst parts)), (concat (map snd parts)), s', parts.
  split; [exact Hrun|]. split; [exact Hparts|]. do 2 (split; [reflexivity|]).
  rewrite (parts_Permutation _ _ _ Hparts). apply names_groups.
Qed.

(** Every group is re-seeded, so a run does not depend on the state of the
    generator that it finds. *)
Lemma split_all_state_independent ratio (gs : list (list Row)) acc s1 s2 :
  fst (split_all ratio gs acc s1) = fst (split_all ratio gs acc s2).
Proof.
  destruct gs as [|g gs]; [reflexivity|].
  unfold split_all. cbn [for_each]. unfold bind. destruct acc as [train test].
  rewrite !split_group_run. reflexivity.
Qed.

End TrainTest.

(** The catalog [x, y, x] with a ratio of one half. *)
Lemma split_train_and_test_partition_witness :
  rounds_ok 0.5 catalog_xyx = true
  /\ exists train test s' parts,
       split_train_and_test catalog_xyx 0.5 (seed 0) = (Ok (train, test), s')
       /\ Forall2 (group_split 0.5) (groups catalog_xyx) parts
       /\ train = concat (map fst parts)
       /\ test = concat (map snd parts)
       /\ train ++ test ≡ₚ names catalog_xyx.
Proof.
  split; [vm_compute; reflexivity|].
  apply (split_train_and_test_partition catalog_xyx 0.5 (seed 0)).
  vm_compute. reflexivity.
Defined.

(** C5, as the spec has it, fails on a group with a repeated name: two
    scenes named [x] in one group and a ratio of one half put [x] into the
    train list and into the test list. *)
Lemma split_same_name_in_both_halves :
  groups catalog_xx = [catalog_xx]
  /\ exists train test,
       fst (split_train_and_test catalog_xx 0.5 (seed 0)) = Ok (train, test)
       /\ "x" ∈ train /\ "x" ∈ test.
Proof.
  split; [vm_compute; reflexivity|].
  exists ["x"], ["x"]. split; [vm_compute; reflexivity|].
  split; apply list_elem_of_here.
Qed.

(** ** Determinism of the split *)

Section OneGroup.

Lemma unique_from_seen (l : list string) (seen : gset string) :
  (forall x, x ∈ l -> x ∈ seen) -> Pandas.unique_from seen l = [].
Proof.
  induction l as [|y l IH]; intros Hall; [reflexivity|].
  cbn [Pandas.unique_from].
  rewrite bool_decide_eq_true_2 by (apply Hall; left).
  apply IH. intros x Hx. apply Hall. right. exact Hx.
Qed.

Lemma unique_constant (l : list string) (c : string) :
  l <> [] -> (forall x, x ∈ l -> x = c) -> Pandas.unique l = [c].
Proof.
  destruct l as [|y l]; [congruence | intros _ Hall].
  assert (y = c) as -> by (apply Hall; left).
  unfold Pandas.unique. cbn [Pandas.unique_from].
  rewrite bool_decide_eq_false_2 by set_solver.
  f_equal. apply unique_from_seen. intros x Hx.
  rewrite (Hall x) by (right; exact Hx). set_solver.
Qed.

Lemma filter_all {A : Type} (p : A -> bool) (l : list A) :
  (forall x, x ∈ l -> p x = true) -> List.filter p l = l.
Proof.
  induction l as [|y l IH]; intros Hall; [reflexivity|].
  cbn [List.filter]. rewrite Hall by left. f_equal.
  apply IH. intros x Hx. apply Hall. right. exact Hx.
Qed.

(** A catalog of one region and one satellite is one group. *)
Lemma groups_single (gdf : list Row) (reg sat : string) :
  gdf <> [] ->
  (forall r : Row, r ∈ gdf -> region r = reg /\ sat_name r = sat) ->
  groups gdf = [gdf].
Proof.
  intros Hne Hall.
  assert (Hrdf : region_df gdf reg = gdf).
  { apply filter_all. intros r Hr. apply String.eqb_eq, Hall, Hr. }
  assert (Hsdf : sat_name_df gdf sat = gdf).
  { apply filter_all. intros r Hr. apply String.eqb_eq, Hall, Hr. }
  unfold groups, regions, sat_names.
  rewrite (unique_constant (map region gdf) reg).
  - cbn [flat_map]. rewrite Hrdf.
    rewrite (unique_constant (map (fun r : Row => sat_name r) gdf) sat).
    + cbn [map]. rewrite Hsdf. reflexivity.
    + destruct gdf; [congruence | discriminate].
    + intros x Hx. apply list_elem_of_fmap in Hx as (r & -> & Hr). apply Hall, Hr.
  - destruct gdf; [congruence | discriminate].
  - intros x Hx. apply list_elem_of_fmap in Hx as (r & -> & Hr). apply Hall, Hr.
Qed.

End OneGroup.

Section Determinism.

Context `{PyRandom}.

(** C6: the result of [split_train_and_test] does not depend on the state
    in which it finds the generator, because every group's shuffle starts
    from [seed(42)]; so a second run on the same catalog, from the state
    left by the first, returns the same two lists (or raises the same
    exception).  On one group of ten names and a ratio of 0.2 the test
    list is the first [round(10 * 0.2) = 2] names of the shuffled group
    and the train list the other eight. *)
Theorem split_train_and_test_deterministic (gdf : list Row) (ratio : float) :
  (forall s1 s2 : rng_state,
     fst (split_train_and_test gdf ratio s1) = fst (split_train_and_test gdf ratio s2))
  /\ (forall s : rng_state,
        fst (split_train_and_test gdf ratio (snd (split_train_and_test gdf ratio s)))
        = fst (split_train_and_test gdf ratio s))
  /\ (forall (ten : list Row) (reg sat : string) (s : rng_state),
        length ten = 10%nat ->
        (forall r : Row, r ∈ ten -> region r = reg /\ sat_name r = sat) ->
        n_test_file_of 0.2 (names ten) = Ok 2
        /\ exists train test,
             fst (split_train_and_test ten 0.2 s) = Ok (train, test)
             /\ test = take 2 (seeded_shuffle (names ten))
             /\ train = drop 2 (seeded_shuffle (names ten))
             /\ length test = 2%nat
             /\ length train = 8%nat).
Proof.
  split; [|split].
  - intros s1 s2. rewrite !split_train_and_test_groups.
    apply split_all_state_independent.
  - intros s. rewrite !split_train_and_test_groups.
    apply split_all_state_independent.
  - intros ten reg sat s Hlen Hall.
    assert (Hnames : length (names ten) = 10%nat)
      by (unfold names; rewrite length_map; exact Hlen).
    assert (Hn : n_test_file_of 0.2 (names ten) = Ok 2).
    { unfold n_test_file_of. rewrite Hnames. vm_compute. reflexivity. }
    split; [exact Hn|].
    rewrite split_train_and_test_groups.
    rewrite (groups_single ten reg sat) by (try exact Hall; intros ->; discriminate Hlen).
    unfold split_all. cbn [for_each]. unfold bind.
    rewrite split_group_run, Hn. cbn [ret fst app].
    pose proof (seeded_shuffle_length (names ten)) as Hsh.
    unfold Py.slice_to, Py.slice_from.
    rewrite Hsh, Hnames. change (Py.slice_bound 2 10) with 2%nat.
    eexists _, _. split; [reflexivity|]. do 2 (split; [reflexivity|]).
    rewrite length_take, length_drop, Hsh, Hnames. split; reflexivity.
Qed.

End Determinism.

(** The ten-scene sample under the generator of CPython: both runs put
    [s7] and [s3] into the test list. *)
Example split_ten_twice :
  let first := split_train_and_test catalog_ten 0.2 (seed 2024) in
  let second := split_train_and_test catalog_ten 0.2 (snd first) in
  fst first = Ok (["s2"; "s8"; "s5"; "s6"; "s9"; "s4"; "s0"; "s1"], ["s7"; "s3"])
  /\ fst second = fst first.
Proof. vm_compute. split; reflexivity. Qed.

(** ** [np.array_split] *)

Section ArraySplit.

Lemma nth_cumsum_from (l : list nat) : forall (a i : nat),
  (i < length l)%nat ->
  nth i (Np.cumsum_from a l) 0%nat = (a + sum_list (take (S i) l))%nat.
Proof.
  induction l as [|x l IH]; intros a i Hi; [simpl in Hi; lia|].
  destruct i as [|i]; cbn [Np.cumsum_from nth].
  - rewrite firstn_cons, take_0. cbn. lia.
  - rewrite IH by (simpl in Hi; lia). rewrite (firstn_cons (S i) x l). cbn. lia.
Qed.

(** The division points are the running sums of the section sizes. *)
Lemma nth_div_points (sizes : list nat) (i : nat) :
  (i <= length sizes)%nat ->
  nth i (Np.cumsum (0%nat :: sizes)) 0%nat = sum_list (take i sizes).
Proof.
  intros Hi. unfold Np.cumsum. cbn [Np.cumsum_from].
  destruct i as [|i]; [reflexivity|].
  cbn [nth]. rewrite nth_cumsum_from by lia. lia.
Qed.

Lemma sum_list_section_sizes (q e n i : nat) :
  (e <= n)%nat -> (i <= n)%nat ->
  sum_list (take i (replicate e (q + 1)%nat ++ replicate (n - e) q))
  = (i * q + Nat.min i e)%nat.
Proof.
  intros He Hi.
  rewrite take_app, !take_replicate, length_replicate, sum_list_with_app,
    !sum_list_replicate.
  destruct (Nat.le_gt_cases i e); nia.
Qed.

Lemma concat_slices {A : Type} (off : nat -> nat) (l : list A) (k : nat) :
  off 0%nat = 0%nat ->
  (forall i, (i < k)%nat -> (off i <= off (S i))%nat) ->
  concat (map (fun i => take (off (S i) - off i) (drop (off i) l)) (seq 0 k))
  = take (off k) l.
Proof.
  intros H0 Hmono. induction k as [|k IH].
  - rewrite H0. reflexivity.
  - rewrite seq_S, map_app, concat_app, IH by (intros i Hi; apply Hmono; lia).
    cbn [map concat plus]. rewrite app_nil_r, take_take_drop.
    f_equal. specialize (Hmono k). lia.
Qed.

(** For [n >= 1] sections, [array_split] cuts the array into [n]
    consecutive pieces; piece [i] has [len // n] elements, and one more
    when [i < len % n]. *)
Lemma array_split_spec {A : Type} (ary : list A) (n : Z) :
  1 <= n ->
  exists chunks,
    array_split ary n = Ok chunks
    /\ length chunks = Z.to_nat n
    /\ concat chunks = ary
    /\ forall i c, chunks !! i = Some c ->
         length c = (length ary / Z.to_nat n
                     + if (i <? length ary mod Z.to_nat n)%nat then 1 else 0)%nat.
Proof.
  intros Hn. unfold array_split.
  destruct (Z.leb_spec n 0) as [|_]; [lia|].
  set (k := Z.to_nat n). assert (Hk : (0 < k)%nat) by lia.
  set (len := length ary).
  set (q := (len / k)%nat). set (e := (len mod k)%nat).
  assert (He : (e < k)%nat) by (apply Nat.mod_upper_bound; lia).
  assert (Hlen : len = (k * q + e)%nat) by (apply Nat.div_mod_eq).
  set (sizes := replicate e (q + 1)%nat ++ replicate (k - e) q).
  assert (Hsizes : length sizes = k).
  { unfold sizes. rewrite length_app, !length_replicate. lia. }
  set (off := fun i => (i * q + Nat.min i e)%nat).
  assert (Hoff : forall i, (i <= k)%nat ->
            nth i (Np.cumsum (0%nat :: sizes)) 0%nat = off i).
  { intros i Hi. rewrite nth_div_points by lia.
    apply sum_list_section_sizes; lia. }
  assert (Hmono : forall i, (off i <= off (S i))%nat) by (intros i; unfold off; lia).
  assert (Hlast : off k = len) by (unfold off; lia).
  assert (Htop : forall i, (i <= k)%nat -> (off i <= len)%nat).
  { intros i Hi. rewrite <- Hlast. unfold off. nia. }
  assert (Hchunks :
    map (fun i => Py.slice (Z.of_nat (nth i (Np.cumsum (0%nat :: sizes)) 0%nat))
                           (Z.of_nat (nth (i + 1) (Np.cumsum (0%nat :: sizes)) 0%nat))
                           ary) (seq 0 k)
    = map (fun i => take (off (S i) - off i) (drop (off i) ary)) (seq 0 k)).
  { apply map_ext_in. intros i Hi. apply in_seq in Hi.
    rewrite !Hoff by lia. replace (i + 1)%nat with (S i) by lia.
    apply slice_in_range. split; [apply Hmono | apply Htop; lia]. }
  eexists. split; [reflexivity|]. rewrite Hchunks.
  split; [rewrite length_map, length_seq; reflexivity|]. split.
  - rewrite (concat_slices off ary k) by (auto; reflexivity).
    rewrite Hlast. apply take_ge. reflexivity.
  - intros i c Hc.
    apply list_lookup_fmap_Some in Hc as (j & -> & Hj).
    apply lookup_seq in Hj as [-> Hi]. cbn [plus].
    rewrite length_take, length_drop. fold len.
    pose proof (Htop (S i) ltac:(lia)). pose proof (Hmono i).
    destruct (Nat.ltb_spec i e); unfold off in *; lia.
Qed.

End ArraySplit.

(** ** The split into [n] *)

Section SplitN.

Context `{PyRandom} `{FileSystem}.

Lemma split_n_group_run n dsts is_move filenames chunks w :
  array_split (seeded_shuffle filenames) n = Ok chunks ->
  split_n_group n dsts is_move filenames w =
  for_each (assignments chunks dsts) (transfer_chunk is_move) tt
           (state_after_shuffle filenames, snd w).
Proof.
  intros Hsplit.
  unfold split_n_group, bind, on_rng, Random.set_seed, lift. cbn [fst snd].
  rewrite seeded_shuffle_run, Hsplit. reflexivity.
Qed.

Lemma split_n_groups gdf n dst_paths is_move w :
  split_n gdf n dst_paths is_move w =
  (_ <- make_destinations n dst_paths ;;
   for_each (groups gdf)
     (fun g _ => split_n_group n (destinations n dst_paths) is_move
                   (map (fun r : Row => absname r) g)) tt) w.
Proof.
  unfold split_n, bind.
  destruct (make_destinations n dst_paths w) as [[[]|e] w']; [|reflexivity].
  unfold groups. rewrite for_each_flat_map. apply for_each_ext.
  intros reg [] w''. rewrite for_each_map. reflexivity.
Qed.







End SplitN.


(** The ten-scene sample split in three: chunks of 4, 3 and 3 paths, whose
    scene directories are copied under [/out/0], [/out/1] and [/out/2]. *)
Example split_ten_in_three :
  array_split (seeded_shuffle (names catalog_ten)) 3
  = Ok [["s7"; "s3"; "s2"; "s8"]; ["s5"; "s6"; "s9"]; ["s4"; "s0"; "s1"]]
  /\ fst (split_n catalog_ten 3 (DstDir "/out") false (seed 1, disk_ten)) = Ok tt
  /\ existing (snd (snd (split_n catalog_ten 3 (DstDir "/out") false (seed 1, disk_ten))))
     = list_to_set
         ["/out/0"; "/out/1"; "/out/2";
          "/out/0/scenes/s7"; "/out/0/scenes/s3"; "/out/0/scenes/s2"; "/out/0/scenes/s8";
          "/out/1/scenes/s5"; "/out/1/scenes/s6"; "/out/1/scenes/s9";
          "/out/2/scenes/s4"; "/out/2/scenes/s0"; "/out/2/scenes/s1"]
       ∪ existing disk_ten.
Proof. vm_compute. repeat split; reflexivity. Qed.


(** ** The footprint *)

Section Footprint.

Context `{Gdal} `{FileSystem}.

Lemma point_eqb_swap (p q : Shapely.point) :
  Shapely.point_eqb (snd p, fst p) (snd q, fst q) = Shapely.point_eqb p q.
Proof. unfold Shapely.point_eqb. cbn [fst snd]. apply andb_comm. Qed.

Lemma float_eqb_first_last (x y : float) :
  PrimFloat.eqb x y = true -> PrimFloat.eqb x x = true.
Proof.
  rewrite !FloatAxioms.eqb_spec. unfold SFeqb, SFcompare.
  destruct (Prim2SF x) as [s|s| |s m e]; destruct (Prim2SF y) as [s'|s'| |s' m' e'];
    try discriminate; intros _; try reflexivity;
    try (destruct s; reflexivity).
  all: destruct s; rewrite Z.compare_refl, Pos.compare_refl; reflexivity.
Qed.

(** A point that is equal to some point is equal to itself: it has no
    NaN. *)
Lemma point_eqb_first_last (p q : Shapely.point) :
  Shapely.point_eqb p q = true -> Shapely.point_eqb p p = true.
Proof.
  unfold Shapely.point_eqb. intros Heq. apply andb_true_iff in Heq as [Hx Hy].
  apply andb_true_iff. split; eapply float_eqb_first_last; eassumption.
Qed.

(** The polygon of a raster, whatever the transform: the four corners in
    pixel winding order, each swapped.  A fourth corner equal to the first
    closes the ring as it is; otherwise the first corner is repeated at
    the end, which closes the ring unless that corner has a NaN. *)
Lemma footprint_spec (r : raster) :
  let W := RasterXSize r in
  let H := RasterYSize r in
  let p0 := geo_corner r (0, 0) in
  let p1 := geo_corner r (W, 0) in
  let p2 := geo_corner r (W, H) in
  let p3 := geo_corner r (0, H) in
  footprint r =
  if Shapely.point_eqb p0 p3
  then Ok {| Shapely.exterior_coords := [p0; p1; p2; p3] |}
  else if Shapely.point_eqb p0 p0
       then Ok {| Shapely.exterior_coords := [p0; p1; p2; p3; p0] |}
       else Raise (GEOSException
              "IllegalArgumentException: Points of LinearRing do not form a closed linestring").
Proof.
  intros W H' p0 p1 p2 p3. unfold footprint.
  unfold p0, p1, p2, p3, geo_corner. fold W H'.
  destruct (get_transform r) as [ct gt].
  unfold cvt_ras_to_geo, raster_list, Shapely.mkPolygon, Shapely.close_ring.
  cbn [map last].
  destruct (Shapely.point_eqb _ _) eqn:E34.
  - unfold Shapely.ring_closed. cbn [last]. rewrite E34. reflexivity.
  - unfold Shapely.ring_closed. cbn [app last]. reflexivity.
Qed.

Lemma footprint_is_ok (r : raster) :
  is_ok (footprint r)
  = Shapely.point_eqb (geo_corner r (0, 0)) (geo_corner r (0, 0)).
Proof.
  pose proof (footprint_spec r) as Hspec. cbn zeta in Hspec. rewrite Hspec.
  destruct (Shapely.point_eqb (geo_corner r (0, 0)) (geo_corner r (0, RasterYSize r)))
    eqn:E.
  - symmetry. exact (point_eqb_first_last _ _ E).
  - destruct (Shapely.point_eqb (geo_corner r (0, 0)) (geo_corner r (0, 0)));
      reflexivity.
Qed.

Lemma scene_info_fields (disk : fs) (path : string) (r : raster) (rec : SceneInfo) :
  scene_info disk path r = Ok rec ->
  absname rec = path
  /\ name rec = fst (OsPath.splitext (OsPath.basename path))
  /\ ext rec = snd (OsPath.splitext (OsPath.basename path))
  /\ sat_name rec = _get_satellite_name path
  /\ is_anno rec = os_path_exists (fst (OsPath.splitext path) +:+ ".label") disk
  /\ footprint r = Ok (geometry rec).
Proof.
  unfold scene_info. destruct (footprint r) as [poly|e]; [|discriminate].
  destruct (OsPath.splitext (OsPath.basename path)). intros [= <-]. cbn. auto 10.
Qed.

Lemma scene_info_of_footprint (disk : fs) (path : string) (r : raster) :
  match footprint r with
  | Ok poly => exists rec, scene_info disk path r = Ok rec /\ geometry rec = poly
  | Raise e => scene_info disk path r = Raise e
  end.
Proof.
  unfold scene_info. destruct (footprint r) as [poly|e]; [|reflexivity].
  destruct (OsPath.splitext (OsPath.basename path)). eexists. split; reflexivity.
Qed.

(** C3, as the code has it: for every raster the corners are taken in the
    order [(0,0), (W,0), (W,H), (0,H)], sent through the transform,
    swapped from (lat, lon) to (lon, lat), and given to the polygon in that
    order.  The ring of the polygon has five vertices, the four corners
    and a closing repeat of the first, exactly when the fourth corner
    differs from the first and the first has no NaN; when the fourth
    corner is equal to the first, the ring is the four corners and no
    more; when the first corner has a NaN, the polygon cannot be made and
    an exception is raised.  The record that the build makes for a raster
    whose polygon is made carries that polygon. *)
Theorem footprint_five_vertices (r : raster) :
  let W := RasterXSize r in
  let H := RasterYSize r in
  let p0 := geo_corner r (0, 0) in
  let p1 := geo_corner r (W, 0) in
  let p2 := geo_corner r (W, H) in
  let p3 := geo_corner r (0, H) in
  raster_list W H = [(0, 0); (W, 0); (W, H); (0, H)]
  /\ (forall ct gt p, get_transform r = (ct, gt) ->
        geo_corner r p = (snd (ras_to_geo gt ct p), fst (ras_to_geo gt ct p)))
  /\ (Shapely.point_eqb p0 p3 = false -> Shapely.point_eqb p0 p0 = true ->
        footprint r = Ok {| Shapely.exterior_coords := [p0; p1; p2; p3; p0] |})
  /\ (Shapely.point_eqb p0 p3 = true ->
        footprint r = Ok {| Shapely.exterior_coords := [p0; p1; p2; p3] |})
  /\ (Shapely.point_eqb p0 p0 = false ->
        footprint r
        = Raise (GEOSException
            "IllegalArgumentException: Points of LinearRing do not form a closed linestring"))
  /\ (forall poly, footprint r = Ok poly ->
        take 4 (Shapely.exterior_coords poly) = [p0; p1; p2; p3]
        /\ (length (Shapely.exterior_coords poly) = 5%nat
            <-> Shapely.point_eqb p0 p3 = false)
        /\ (length (Shapely.exterior_coords poly) = 4%nat
            <-> Shapely.point_eqb p0 p3 = true))
  /\ forall poly disk path infos printed,
       footprint r = Ok poly -> gdal_Open path = Some r ->
       exists rec,
         scan_path disk path infos printed = (Ok (infos ++ [rec]), printed)
         /\ absname rec = path /\ geometry rec = poly.
Proof.
  intros W H' p0 p1 p2 p3.
  pose proof (footprint_spec r) as Hspec. cbn zeta in Hspec.
  fold W H' p0 p1 p2 p3 in Hspec.
  split; [reflexivity|]. split; [|split; [|split; [|split; [|split]]]].
  - intros ct gt p Htf. unfold geo_corner. rewrite Htf. reflexivity.
  - intros H03 H00. rewrite Hspec, H03, H00. reflexivity.
  - intros H03. rewrite Hspec, H03. reflexivity.
  - intros H00. rewrite Hspec.
    destruct (Shapely.point_eqb p0 p3) eqn:H03.
    + rewrite (point_eqb_first_last _ _ H03) in H00. discriminate.
    + rewrite H00. reflexivity.
  - intros poly Hpoly. rewrite Hspec in Hpoly.
    destruct (Shapely.point_eqb p0 p3).
    + injection Hpoly as <-. cbn. split; [reflexivity|].
      split; split; intros; (reflexivity || discriminate).
    + destruct (Shapely.point_eqb p0 p0); [|discriminate].
      injection Hpoly as <-. cbn. split; [reflexivity|].
      split; split; intros; (reflexivity || discriminate).
  - intros poly disk path infos printed Hpoly Hopen.
    pose proof (scene_info_of_footprint disk path r) as Hinfo.
    rewrite Hpoly in Hinfo. destruct Hinfo as (rec & Hrec & Hgeo).
    exists rec. unfold scan_path. rewrite Hopen, Hrec.
    split; [reflexivity|]. split; [|exact Hgeo].
    exact (proj1 (scene_info_fields disk path r rec Hrec)).
Qed.

End Footprint.

(** The georeferenced sample scene: 100 by 50 pixels of half a degree. *)
Lemma footprint_five_vertices_witness :
  let r : raster := (100, 50, (127, 0.5, 0, 37.5, 0, -0.5)%float) in
  gdal_Open "/data/scenes/a/a_k3.tif" = Some r
  /\ 0 < RasterYSize r
  /\ footprint r
     = Ok {| Shapely.exterior_coords :=
               [(127, 37.5); (177, 37.5); (177, 12.5); (127, 12.5); (127, 37.5)]%float |}
  /\ forall poly, footprint r = Ok poly ->
                  length (Shapely.exterior_coords poly) = 5%nat.
Proof.
  intros r. split; [reflexivity|]. split; [reflexivity|].
  pose proof (footprint_five_vertices r) as (_ & _ & Hfive & _ & _ & Hlen & _).
  split.
  - apply Hfive; vm_compute; reflexivity.
  - intros poly Hpoly. apply (Hlen poly Hpoly). vm_compute. reflexivity.
Defined.

(** A raster of ten by ten pixels whose geotransform has a pixel size of
    zero: the four corners go to one point, the four points are a closed
    ring already, and no closing vertex is added.  The ring has four
    vertices. *)
Lemma degenerate_transform_four_vertices :
  let r : raster := (10, 10, (127, 0, 0, 37.5, 0, 0)%float) in
  gdal_Open "/data/scenes/flat/flat.tif" = Some r
  /\ 0 < RasterXSize r /\ 0 < RasterYSize r
  /\ footprint r
     = Ok {| Shapely.exterior_coords :=
               [(127, 37.5); (127, 37.5); (127, 37.5); (127, 37.5)]%float |}
  /\ forall poly, footprint r = Ok poly ->
                  length (Shapely.exterior_coords poly) <> 5%nat.
Proof.
  intros r. split; [reflexivity|]. split; [reflexivity|]. split; [reflexivity|].
  assert (Hfoot : footprint r
            = Ok {| Shapely.exterior_coords :=
                      [(127, 37.5); (127, 37.5); (127, 37.5); (127, 37.5)]%float |})
    by (vm_compute; reflexivity).
  split; [exact Hfoot|].
  intros poly Hpoly. rewrite Hfoot in Hpoly. injection Hpoly as <-.
  cbn. discriminate.
Qed.

(** A raster whose geotransform has a NaN as origin: no polygon. *)
Example nan_corner_no_polygon :
  let r : raster := (10, 10, (nan, 1, 0, 0, 0, -1)%float) in
  gdal_Open "/data/void/void.tif" = Some r
  /\ geo_corner r (0, 0) = (nan, 0)%float
  /\ footprint r
     = Raise (GEOSException
         "IllegalArgumentException: Points of LinearRing do not form a closed linestring").
Proof. intros r. repeat split; vm_compute; reflexivity. Qed.

(** ** The catalog build *)

Section BuildFacts.

Context `{Gdal} `{FileSystem}.

Lemma records_of_app disk p1 p2 :
  records_of disk (p1 ++ p2) = records_of disk p1 ++ records_of disk p2.
Proof. unfold records_of. apply flat_map_app. Qed.

Lemma diagnostics_of_app p1 p2 :
  diagnostics_of (p1 ++ p2) = diagnostics_of p1 ++ diagnostics_of p2.
Proof. unfold diagnostics_of. apply flat_map_app. Qed.

Lemma builds_spec (disk : fs) (path : string) :
  builds path = true <->
  forall r, gdal_Open path = Some r -> exists rec, scene_info disk path r = Ok rec.
Proof.
  unfold builds. destruct (gdal_Open path) as [r|].
  - pose proof (scene_info_of_footprint disk path r) as Hinfo.
    destruct (footprint r) as [poly|e].
    + destruct Hinfo as (rec & Hrec & _). split; [|reflexivity].
      intros _ r' [= <-]. eauto.
    + split; [discriminate|]. intros Hall.
      destruct (Hall r eq_refl) as [rec Hrec]. rewrite Hinfo in Hrec. discriminate.
  - split; [|reflexivity]. intros _ r [=].
Qed.

(** A walk over paths at none of which the build can fail. *)
Lemma scan_paths_spec (disk : fs) (paths : list string) :
  forallb builds paths = true ->
  forall infos printed,
    scan_paths disk paths infos printed =
    (Ok (infos ++ records_of disk paths), printed ++ diagnostics_of paths).
Proof.
  unfold scan_paths, records_of, diagnostics_of.
  induction paths as [|path paths IH]; intros Hall infos printed.
  - cbn. rewrite !app_nil_r. reflexivity.
  - cbn [forallb] in Hall. apply andb_true_iff in Hall as [Hpath Hall].
    cbn [for_each flat_map]. unfold bind. unfold scan_path at 1.
    unfold builds in Hpath. destruct (gdal_Open path) as [r|].
    + pose proof (scene_info_of_footprint disk path r) as Hinfo.
      destruct (footprint r) as [poly|e]; [|discriminate].
      destruct Hinfo as (rec & Hrec & _). rewrite Hrec.
      rewrite (IH Hall), <- !app_assoc. reflexivity.
    + rewrite (IH Hall), <- !app_assoc. reflexivity.
Qed.

(** A walk that meets a raster whose polygon cannot be made. *)
Lemma scan_paths_raises (disk : fs) (good : list string) (bad : string)
  (rest : list string) (r : raster) (e : error) :
  forallb builds good = true -> gdal_Open bad = Some r -> footprint r = Raise e ->
  forall infos printed,
    scan_paths disk (good ++ bad :: rest) infos printed
    = (Raise e, printed ++ diagnostics_of good).
Proof.
  intros Hgood Hopen Hfoot infos printed.
  pose proof (scan_paths_spec disk good Hgood infos printed) as Hrun.
  unfold scan_paths in *. rewrite for_each_app, Hrun.
  cbn [for_each]. unfold bind, scan_path. rewrite Hopen.
  pose proof (scene_info_of_footprint disk bad r) as Hinfo.
  rewrite Hfoot in Hinfo. rewrite Hinfo. reflexivity.
Qed.

(** The first path at which the build fails, when there is one. *)
Lemma first_not_builds (paths : list string) :
  forallb builds paths = false ->
  exists good bad rest,
    paths = good ++ bad :: rest /\ forallb builds good = true /\ builds bad = false.
Proof.
  induction paths as [|path paths IH]; [discriminate|].
  cbn [forallb]. destruct (builds path) eqn:Hpath.
  - intros Hrest. destruct (IH Hrest) as (good & bad & rest & -> & Hgood & Hbad).
    exists (path :: good), bad, rest. cbn [forallb]. rewrite Hpath. auto.
  - intros _. exists [], path, paths. auto.
Qed.

Lemma builds_false (path : string) :
  builds path = false -> exists r e, gdal_Open path = Some r /\ footprint r = Raise e.
Proof.
  unfold builds. destruct (gdal_Open path) as [r|]; [|discriminate].
  destruct (footprint r) as [poly|e] eqn:Hfoot; [discriminate|].
  intros _. exists r, e. split; [reflexivity | exact Hfoot].
Qed.

Lemma build_scan (disk : fs) dirs name_suffixes img_ext :
  build disk dirs name_suffixes img_ext
  = scan_paths disk (all_kept_paths disk dirs name_suffixes img_ext) [] [].
Proof.
  unfold build, all_kept_paths, scan_paths. rewrite for_each_flat_map.
  apply for_each_ext. intros [d suffix] acc s. reflexivity.
Qed.

Lemma build_spec (disk : fs) dirs name_suffixes img_ext :
  forallb builds (all_kept_paths disk dirs name_suffixes img_ext) = true ->
  build disk dirs name_suffixes img_ext =
  (Ok (records_of disk (all_kept_paths disk dirs name_suffixes img_ext)),
   diagnostics_of (all_kept_paths disk dirs name_suffixes img_ext)).
Proof. intros Hall. rewrite build_scan. exact (scan_paths_spec disk _ Hall [] []). Qed.

Lemma build_is_ok (disk : fs) dirs name_suffixes img_ext :
  is_ok (fst (build disk dirs name_suffixes img_ext))
  = forallb builds (all_kept_paths disk dirs name_suffixes img_ext).
Proof.
  destruct (forallb builds (all_kept_paths disk dirs name_suffixes img_ext)) eqn:Hall.
  - rewrite (build_spec _ _ _ _ Hall). reflexivity.
  - destruct (first_not_builds _ Hall) as (good & bad & rest & Hpaths & Hgood & Hbad).
    destruct (builds_false bad Hbad) as (r & e & Hopen & Hfoot).
    rewrite build_scan, Hpaths.
    rewrite (scan_paths_raises disk good bad rest r e Hgood Hopen Hfoot). reflexivity.
Qed.

(** A build that returns a catalog has met no failure. *)
Lemma build_returns (disk : fs) dirs name_suffixes img_ext built :
  fst (build disk dirs name_suffixes img_ext) = Ok built ->
  build disk dirs name_suffixes img_ext =
  (Ok (records_of disk (all_kept_paths disk dirs name_suffixes img_ext)),
   diagnostics_of (all_kept_paths disk dirs name_suffixes img_ext))
  /\ built = records_of disk (all_kept_paths disk dirs name_suffixes img_ext).
Proof.
  intros Hbuilt. pose proof (build_is_ok disk dirs name_suffixes img_ext) as Hok.
  rewrite Hbuilt in Hok. cbn in Hok. symmetry in Hok.
  pose proof (build_spec _ _ _ _ Hok) as Hspec. split; [exact Hspec|].
  rewrite Hspec in Hbuilt. cbn in Hbuilt. congruence.
Qed.

Lemma elem_of_records_of disk paths rec :
  rec ∈ records_of disk paths <->
  exists path r, path ∈ paths /\ gdal_Open path = Some r
                 /\ scene_info disk path r = Ok rec.
Proof.
  unfold records_of. rewrite list_elem_of_In, in_flat_map. split.
  - intros (path & Hpath & Hrec). destruct (gdal_Open path) as [r|] eqn:E.
    + destruct (scene_info disk path r) as [info|e] eqn:Hinfo; [|destruct Hrec].
      destruct Hrec as [<-|[]]. exists path, r.
      split; [apply list_elem_of_In; exact Hpath | auto].
    + destruct Hrec.
  - intros (path & r & Hpath & Hopen & Hinfo). exists path.
    split; [apply list_elem_of_In; exact Hpath|]. rewrite Hopen, Hinfo.
    left. reflexivity.
Qed.

Lemma elem_of_diagnostics_of paths path :
  path ∈ paths -> gdal_Open path = None ->
  "Can not open " +:+ path ∈ diagnostics_of paths.
Proof.
  intros Hpath Hopen. unfold diagnostics_of.
  rewrite list_elem_of_In, in_flat_map. exists path.
  split; [apply list_elem_of_In; exact Hpath|]. rewrite Hopen. left. reflexivity.
Qed.

(** C4, as the code has it: the build neither tests the transformed
    coordinates for finiteness nor catches an exception about them.  The
    polygon of a raster is made exactly when its first corner is equal to
    itself, that is, has no NaN; infinite coordinates do not stand in the
    way.  When that holds of every kept path that opens, the build returns
    a catalog: every kept path whose raster opens has its record in it,
    with the polygon of that raster; a raster that does not open is
    reported, leaves no record, and the build goes on with the remaining
    files.  At the first kept path whose raster opens and whose polygon
    cannot be made, the exception of the polygon ends the whole build: no
    catalog is returned, and only the diagnostics of the paths before it
    have been printed. *)
Theorem build_skips_unopened_only (disk : fs) (dirs : list string)
  (name_suffixes : list (option string)) (img_ext : list string) :
  let paths := all_kept_paths disk dirs name_suffixes img_ext in
  (forall r, is_ok (footprint r)
             = Shapely.point_eqb (geo_corner r (0, 0)) (geo_corner r (0, 0)))
  /\ is_ok (fst (build disk dirs name_suffixes img_ext)) = forallb builds paths
  /\ (forallb builds paths = true ->
      build disk dirs name_suffixes img_ext
      = (Ok (records_of disk paths), diagnostics_of paths)
      /\ forall path, path ∈ paths ->
           (forall r, gdal_Open path = Some r ->
              exists rec, scene_info disk path r = Ok rec
                          /\ rec ∈ records_of disk paths
                          /\ absname rec = path
                          /\ footprint r = Ok (geometry rec))
           /\ (gdal_Open path = None ->
                 "Can not open " +:+ path ∈ diagnostics_of paths
                 /\ forall rec, rec ∈ records_of disk paths -> absname rec <> path))
  /\ (forall good bad rest,
        paths = good ++ bad :: rest -> forallb builds good = true ->
        builds bad = false ->
        exists r e,
          gdal_Open bad = Some r /\ footprint r = Raise e
          /\ build disk dirs name_suffixes img_ext = (Raise e, diagnostics_of good)).
Proof.
  intros paths. split; [apply footprint_is_ok|]. split; [apply build_is_ok|]. split.
  - intros Hall. split; [apply build_spec; exact Hall|].
    intros path Hpath. split.
    + intros r Hopen.
      assert (Hpath' : builds path = true).
      { rewrite forallb_forall in Hall. apply Hall, list_elem_of_In, Hpath. }
      destruct (proj1 (builds_spec disk path) Hpath' r Hopen) as [rec Hrec].
      exists rec. split; [exact Hrec|]. split.
      * apply elem_of_records_of. exists path, r. auto.
      * destruct (scene_info_fields disk path r rec Hrec) as (Habs & _ & _ & _ & _ & Hgeo).
        auto.
    + intros Hopen. split; [apply elem_of_diagnostics_of; assumption|].
      intros rec Hrec Habs.
      apply elem_of_records_of in Hrec as (path' & r & _ & Hopen' & Hinfo).
      rewrite (proj1 (scene_info_fields disk path' r rec Hinfo)) in Habs.
      subst path'. congruence.
  - intros good bad rest Hpaths Hgood Hbad.
    destruct (builds_false bad Hbad) as (r & e & Hopen & Hfoot).
    exists r, e. split; [exact Hopen|]. split; [exact Hfoot|].
    rewrite build_scan. fold paths. rewrite Hpaths.
    apply (scan_paths_raises disk good bad rest r e Hgood Hopen Hfoot).
Qed.

End BuildFacts.

(** The scene [far.tif] of the sample disk has a geotransform with an
    infinite origin.  No exception is raised on its non-finite
    transformed coordinates, and the build returns a catalog with its
    record in it, the footprint holding the infinite coordinates. *)
Lemma build_keeps_non_finite_footprint :
  exists (built : list SceneInfo) (rec : SceneInfo),
    fst (build disk_scenes ["/data/scenes"] [None] ["jp2"; "tif"]) = Ok built
    /\ rec ∈ built
    /\ absname rec = "/data/scenes/inf/far.tif"
    /\ Shapely.exterior_coords (geometry rec)
       = [(infinity, 0); (infinity, 0); (infinity, -10); (infinity, -10);
          (infinity, 0)]%float
    /\ forallb Shapely.point_finite (Shapely.exterior_coords (geometry rec)) = false.
Proof.
  eexists _, _. split; [vm_compute; reflexivity|].
  split; [apply list_elem_of_further, list_elem_of_here|].
  repeat split; vm_compute; reflexivity.
Qed.

(** A scene whose first corner has a NaN ends the build: the file before
    it has been reported, the scene after it is never looked at, and there
    is no catalog. *)
Example build_aborts_on_nan_corner :
  all_kept_paths disk_void ["/data/void"] [None] ["jp2"; "tif"]
  = ["/data/void/broken.tif"; "/data/void/void.tif"; "/data/scenes/a/a_k3.tif"]
  /\ build disk_void ["/data/void"] [None] ["jp2"; "tif"]
     = (Raise (GEOSException
          "IllegalArgumentException: Points of LinearRing do not form a closed linestring"),
        ["Can not open /data/void/broken.tif"]).
Proof. split; vm_compute; reflexivity. Qed.

(** ** Which files are kept *)

Section KeptFiles.

Import PyStr.

Lemma length_append_str (a b : string) :
  String.length (a +:+ b) = (String.length a + String.length b)%nat.
Proof.
  induction a as [|c a IH]; [reflexivity|].
  change (S (String.length (a +:+ b)) = S (String.length a + String.length b)).
  rewrite IH. reflexivity.
Qed.

Lemma drop_str_append (pre p : string) : drop_str (String.length pre) (pre +:+ p) = p.
Proof. induction pre as [|c pre IH]; [reflexivity | exact IH]. Qed.

Lemma take_drop_str (n : nat) (s : string) : take_str n s +:+ drop_str n s = s.
Proof.
  revert s. induction n as [|n IH]; intros [|c s]; try reflexivity.
  change (String c (take_str n s +:+ drop_str n s) = String c s).
  rewrite IH. reflexivity.
Qed.

(** [s.endswith(p)] says that [s] is some string followed by [p]. *)
Lemma endswith_spec (s p : string) :
  endswith s p = true <-> exists pre, s = pre +:+ p.
Proof.
  unfold endswith. rewrite andb_true_iff, Nat.leb_le, String.eqb_eq. split.
  - intros [_ Hdrop]. exists (take_str (String.length s - String.length p) s).
    rewrite <- (take_drop_str (String.length s - String.length p) s) at 1.
    rewrite Hdrop. reflexivity.
  - intros [pre ->]. rewrite length_append_str. split; [lia|].
    replace (String.length pre + String.length p - String.length p)%nat
      with (String.length pre) by lia.
    apply drop_str_append.
Qed.

Lemma endswith_any_spec (s : string) (ps : list string) :
  endswith_any s ps = true <-> exists e pre, e ∈ ps /\ s = pre +:+ e.
Proof.
  unfold endswith_any. rewrite existsb_exists. split.
  - intros (e & He & Hends). apply endswith_spec in Hends as [pre Hpre].
    exists e, pre. split; [apply list_elem_of_In; exact He | exact Hpre].
  - intros (e & pre & He & Hpre). exists e.
    split; [apply list_elem_of_In; exact He | apply endswith_spec; eauto].
Qed.

Context `{Gdal} `{FileSystem}.

Lemma elem_of_image_paths (disk : fs) d img_ext path :
  path ∈ image_paths disk d img_ext <->
  exists root dirs files name,
    (root, dirs, files) ∈ os_walk d disk /\ name ∈ files
    /\ path = OsPath.join root name
    /\ endswith_any (lower name) img_ext = true.
Proof.
  unfold image_paths. rewrite list_elem_of_In, in_flat_map. split.
  - intros ([[root dirs] files] & Hwalk & Hin).
    apply in_map_iff in Hin as (name & <- & Hname).
    apply filter_In in Hname as [Hname Hext].
    exists root, dirs, files, name. rewrite !list_elem_of_In. auto.
  - intros (root & dirs & files & name & Hwalk & Hname & -> & Hext).
    exists (root, dirs, files). split; [apply list_elem_of_In; exact Hwalk|].
    apply in_map, filter_In. split; [apply list_elem_of_In; exact Hname | exact Hext].
Qed.

Lemma elem_of_filter_suffix suffix paths path :
  path ∈ filter_suffix suffix paths <->
  path ∈ paths
  /\ forall sfx, suffix = Some sfx -> sfx <> "" ->
       endswith (lower (fst (OsPath.splitext path))) sfx = true.
Proof.
  unfold filter_suffix. destruct suffix as [sfx|].
  - destruct (String.eqb_spec sfx "") as [->|Hne]; cbn [negb].
    + split; [intros Hp; split; [exact Hp|] | tauto].
      intros sfx [= <-] Hne. congruence.
    + rewrite list_elem_of_In, filter_In, <- list_elem_of_In. split.
      * intros [Hp Hends]. split; [exact Hp|]. intros sfx' [= <-] _. exact Hends.
      * intros [Hp Hends]. split; [exact Hp | apply Hends; [reflexivity | exact Hne]].
  - split; [intros Hp; split; [exact Hp|] | tauto]. intros sfx [=].
Qed.

(** C9, as the code has it: a discovered file is kept exactly when its
    lower-cased name ends with one of the strings of the allow-list (a
    test on the end of the name, not on the extension), and, when a
    non-empty suffix is set, its path without the extension, lower-cased,
    ends with the suffix as it is given. *)
Theorem kept_paths_rule (disk : fs) (d : string) (suffix : option string)
  (img_ext : list string) (path : string) :
  path ∈ kept_paths disk d suffix img_ext <->
  exists root dirs files name,
    (root, dirs, files) ∈ os_walk d disk /\ name ∈ files
    /\ path = OsPath.join root name
    /\ (exists e pre, e ∈ img_ext /\ lower name = pre +:+ e)
    /\ (forall sfx, suffix = Some sfx -> sfx <> "" ->
          exists pre, lower (fst (OsPath.splitext path)) = pre +:+ sfx).
Proof.
  unfold kept_paths. rewrite elem_of_filter_suffix, elem_of_image_paths. split.
  - intros [(root & dirs & files & name & Hwalk & Hname & Hpath & Hext) Hsfx].
    exists root, dirs, files, name. repeat (split; [assumption|]). split.
    + apply endswith_any_spec. exact Hext.
    + intros sfx Hs Hne. apply endswith_spec. exact (Hsfx sfx Hs Hne).
  - intros (root & dirs & files & name & Hwalk & Hname & Hpath & Hext & Hsfx). split.
    + exists root, dirs, files, name. repeat (split; [assumption|]).
      apply endswith_any_spec. exact Hext.
    + intros sfx Hs Hne. apply endswith_spec. exact (Hsfx sfx Hs Hne).
Qed.

End KeptFiles.

(** C9, as the spec has it, fails: the file [mytif] has no extension, so
    its extension is not in the allow-list [('jp2', 'tif')], yet its name
    ends with [tif] and the build keeps it. *)
Lemma kept_file_without_extension :
  "/data/scenes/inf/mytif" ∈ kept_paths disk_scenes "/data/scenes" None ["jp2"; "tif"]
  /\ OsPath.splitext "mytif" = ("mytif", "")
  /\ spec_keeps_file ["jp2"; "tif"] None "mytif" = false.
Proof.
  split; [|split; vm_compute; reflexivity].
  apply list_elem_of_In. vm_compute. tauto.
Qed.

(** ** The map view and the colour table *)

Section MapViewFacts.

Variables template_frond template_end : string.

Lemma for_each_pure_app {A B : Type} (xs ys : list A) (body : A -> B -> result B) acc :
  for_each_pure (xs ++ ys) body acc =
  match for_each_pure xs body acc with
  | Ok acc' => for_each_pure ys body acc'
  | Raise e => Raise e
  end.
Proof.
  revert acc. induction xs as [|x xs IH]; intros acc; [reflexivity|].
  cbn [app for_each_pure]. destruct (body x acc); [apply IH | reflexivity].
Qed.

(** A loop whose body appends [f x] to a list. *)
Lemma for_each_pure_appends {A C : Type} (xs : list A)
  (body : A -> list C -> result (list C)) (f : A -> list C) acc :
  (forall x acc, x ∈ xs -> body x acc = Ok (acc ++ f x)) ->
  for_each_pure xs body acc = Ok (acc ++ flat_map f xs).
Proof.
  revert acc. induction xs as [|x xs IH]; intros acc Hbody.
  - cbn. rewrite app_nil_r. reflexivity.
  - cbn [for_each_pure flat_map]. rewrite Hbody by left.
    rewrite IH by (intros; apply Hbody; right; assumption).
    rewrite app_assoc. reflexivity.
Qed.

(** A loop that goes well up to an element on which its body raises. *)
Lemma for_each_pure_raises {A C : Type} (good : list A) (x : A) (rest : list A)
  (body : A -> list C -> result (list C)) (f : A -> list C) (e : error) acc :
  (forall y acc, y ∈ good -> body y acc = Ok (acc ++ f y)) ->
  (forall acc, body x acc = Raise e) ->
  for_each_pure (good ++ x :: rest) body acc = Raise e.
Proof.
  intros Hgood Hx. rewrite for_each_pure_app.
  rewrite (for_each_pure_appends good body f acc Hgood).
  cbn [for_each_pure]. rewrite Hx. reflexivity.
Qed.

(** The first key without a colour, when there is one. *)
Lemma first_uncoloured (keys : list string) :
  (exists k, k ∈ keys /\ uncoloured k) ->
  exists good k rest,
    keys = good ++ k :: rest /\ uncoloured k
    /\ forall y, y ∈ good -> is_Some (SATELLITE_COLORS !! y).
Proof.
  induction keys as [|k0 keys IH]; intros (k & Hk & Hbad).
  - inversion Hk.
  - destruct (SATELLITE_COLORS !! k0) as [c|] eqn:E.
    + destruct IH as (good & k' & rest & -> & Hbad' & Hgood).
      { apply elem_of_cons in Hk as [->|Hk]; [unfold uncoloured in Hbad; congruence|].
        eauto. }
      exists (k0 :: good), k', rest. split; [reflexivity|]. split; [exact Hbad'|].
      intros y Hy. apply elem_of_cons in Hy as [->|Hy]; [rewrite E; eauto | auto].
    + exists [], k0, keys. split; [reflexivity|]. split; [exact E|].
      intros y Hy. inversion Hy.
Qed.

Lemma flat_map_singleton {A C : Type} (f : A -> C) (l : list A) :
  flat_map (fun x => [f x]) l = map f l.
Proof.
  induction l as [|x l IH]; [reflexivity|].
  cbn [flat_map map app]. rewrite IH. reflexivity.
Qed.

Lemma legend_item_ok sat legend :
  is_Some (SATELLITE_COLORS !! sat) ->
  legend_item sat legend
  = Ok (legend ++ [legend_line (default "" (SATELLITE_COLORS !! sat)) sat]).
Proof. intros [c Hc]. unfold legend_item, getitem. rewrite Hc. reflexivity. Qed.

Lemma legend_item_raises sat legend :
  uncoloured sat -> legend_item sat legend = Raise (KeyError sat).
Proof. intros Hc. unfold legend_item, getitem. rewrite Hc. reflexivity. Qed.

Lemma add_polygons_ok sat (rows : list Row) m :
  is_Some (SATELLITE_COLORS !! sat) ->
  for_each_pure rows (add_polygon sat) m
  = Ok (m ++ map (folium_polygon (default "" (SATELLITE_COLORS !! sat))) rows).
Proof.
  intros [c Hc]. rewrite Hc. cbn [default from_option id].
  rewrite (for_each_pure_appends rows (add_polygon sat)
             (fun r => [folium_polygon c r]) m).
  - rewrite flat_map_singleton. reflexivity.
  - intros r acc _. unfold add_polygon, getitem. rewrite Hc. reflexivity.
Qed.

Lemma add_polygons_raises sat (rows : list Row) m :
  uncoloured sat -> rows <> [] ->
  for_each_pure rows (add_polygon sat) m = Raise (KeyError sat).
Proof.
  intros Hc Hne. destruct rows as [|r rows]; [congruence|].
  cbn [for_each_pure]. unfold add_polygon, getitem. rewrite Hc. reflexivity.
Qed.

Lemma elem_of_sat_names (gdf : list Row) (k : string) :
  k ∈ sat_names gdf <-> exists r : Row, r ∈ gdf /\ sat_name r = k.
Proof.
  unfold sat_names. rewrite elem_of_unique, list_elem_of_fmap. split.
  - intros (r & -> & Hr). eauto.
  - intros (r & Hr & <-). eauto.
Qed.

Lemma sat_name_df_nonempty (gdf : list Row) (k : string) :
  k ∈ sat_names gdf -> sat_name_df gdf k <> [].
Proof.
  intros Hk. apply elem_of_sat_names in Hk as (r & Hr & <-).
  intros E. assert (Hin : In r (sat_name_df gdf (sat_name r))).
  { apply filter_In. split; [apply list_elem_of_In; exact Hr | apply String.eqb_refl]. }
  rewrite E in Hin. exact Hin.
Qed.

(** C10: the colour table has the seven satellite names as its keys and
    no entry for UNKNOWN.  On a catalog with a record whose satellite name
    is not a key, [get_legend] and [vis_on_map] raise a [KeyError], for the
    first such name that the catalog has; on a catalog all of whose
    satellite names are keys, both succeed, and the map has one polygon per
    record. *)
Theorem map_view_needs_colour (gdf : list Row) :
  (SATELLITE_COLORS !! "UNKNOWN" = None
   /\ forall k, is_Some (SATELLITE_COLORS !! k) <-> k ∈ SATELLITE_NAMES)
  /\ ((exists r : Row, r ∈ gdf /\ SATELLITE_COLORS !! sat_name r = None) ->
      exists k,
        SATELLITE_COLORS !! k = None
        /\ (exists r : Row, r ∈ gdf /\ sat_name r = k)
        /\ get_legend template_frond template_end gdf = Raise (KeyError k)
        /\ vis_on_map template_frond template_end gdf = Raise (KeyError k))
  /\ ((forall r : Row, r ∈ gdf -> is_Some (SATELLITE_COLORS !! sat_name r)) ->
      exists m legend,
        get_legend template_frond template_end gdf = Ok legend
        /\ vis_on_map template_frond template_end gdf = Ok (m, legend)
        /\ length m = length gdf).
Proof.
  split; [|split].
  - split; [reflexivity|]. intros k. rewrite <- elem_of_dom.
    replace (dom SATELLITE_COLORS) with (list_to_set (C := gset string) SATELLITE_NAMES)
      by (vm_compute; reflexivity).
    rewrite elem_of_list_to_set. reflexivity.
  - intros (r & Hr & Hbad).
    destruct (first_uncoloured (sat_names gdf)) as (good & k & rest & Hkeys & Hk & Hgood).
    { exists (sat_name r). split; [apply elem_of_sat_names; eauto | exact Hbad]. }
    assert (Hin : k ∈ sat_names gdf) by (rewrite Hkeys; set_solver).
    exists k. split; [exact Hk|].
    split; [apply elem_of_sat_names; exact Hin|]. split.
    + unfold get_legend. rewrite Hkeys.
      rewrite (for_each_pure_raises good k rest legend_item
                 (fun sat => [legend_line (default "" (SATELLITE_COLORS !! sat)) sat])
                 (KeyError k)); [reflexivity | |].
      * intros y acc Hy. apply legend_item_ok, Hgood, Hy.
      * intros acc. apply legend_item_raises, Hk.
    + unfold vis_on_map. rewrite Hkeys.
      rewrite (for_each_pure_raises good k rest _
                 (fun sat => map (folium_polygon (default "" (SATELLITE_COLORS !! sat)))
                                 (sat_name_df gdf sat))
                 (KeyError k)); [reflexivity | |].
      * intros y acc Hy. apply add_polygons_ok, Hgood, Hy.
      * intros acc. apply add_polygons_raises; [exact Hk|].
        apply sat_name_df_nonempty, Hin.
  - intros Hall.
    assert (Hkeys : forall k, k ∈ sat_names gdf -> is_Some (SATELLITE_COLORS !! k)).
    { intros k Hk. apply elem_of_sat_names in Hk as (r & Hr & <-). apply Hall, Hr. }
    eexists _, _. unfold vis_on_map, get_legend.
    rewrite (for_each_pure_appends (sat_names gdf) legend_item
               (fun sat => [legend_line (default "" (SATELLITE_COLORS !! sat)) sat]))
      by (intros; apply legend_item_ok, Hkeys; assumption).
    rewrite (for_each_pure_appends (sat_names gdf) _
               (fun sat => map (folium_polygon (default "" (SATELLITE_COLORS !! sat)))
                               (sat_name_df gdf sat)))
      by (intros; apply add_polygons_ok, Hkeys; assumption).
    split; [reflexivity|]. split; [reflexivity|].
    cbn [app]. rewrite flat_map_concat_map, length_concat, map_map.
    erewrite map_ext by (intros; apply length_map).
    rewrite <- (map_map (sat_name_df gdf) length), <- length_concat.
    apply Permutation_length.
    exact (concat_by_unique (fun r : Row => sat_name r) gdf).
Qed.

End MapViewFacts.

(** The catalog [x, y, x] draws three polygons; a catalog with a scene of
    an unknown satellite draws none and has no legend. *)
Example map_of_known_and_unknown :
  (exists m legend, vis_on_map "<ul>" "</ul>" catalog_xyx = Ok (m, legend)
                    /\ map color m = ["#F423E8"; "#F423E8"; "#FAAA1E"])
  /\ vis_on_map "<ul>" "</ul>" (catalog_xyx ++ [sample_row "UNKNOWN" "/d/u.tif" "u" "seoul"])
     = Raise (KeyError "UNKNOWN")
  /\ get_legend "<ul>" "</ul>" (catalog_xyx ++ [sample_row "UNKNOWN" "/d/u.tif" "u" "seoul"])
     = Raise (KeyError "UNKNOWN").
Proof.
  split; [eexists _, _; split; vm_compute; reflexivity|].
  split; vm_compute; reflexivity.
Qed.

(** * Further properties *)

(** ** The resolver *)

Section ResolverMore.

Import PyStr.

Lemma occurs_at_shorter s a b i : occurs_at s (a +:+ b) i -> occurs_at s a i.
Proof.
  intros (pre & post & -> & Hlen). exists pre, (b +:+ post). split; [|exact Hlen].
  f_equal. clear. induction a as [|c a IH]; [reflexivity|].
  change (String c ((a +:+ b) +:+ post) = String c (a +:+ b +:+ post)).
  rewrite IH. reflexivity.
Qed.

Lemma rfind_absent s sub : rfind s sub = -1 <-> forall i, ~ occurs_at s sub i.
Proof.
  destruct (rfind_rightmost s sub) as [[Hr Hno] | (H0 & Hocc & _)].
  - tauto.
  - split; [lia | intros Hno; exfalso; exact (Hno _ Hocc)].
Qed.

Lemma rfind_lower_bound s sub : -1 <= rfind s sub.
Proof. destruct (rfind_rightmost s sub) as [[-> _] | (H0 & _)]; lia. Qed.

(** Where a longer name is found, its beginning is found at least as far
    to the right. *)
Lemma rfind_shorter s a b : rfind s (a +:+ b) <= rfind s a.
Proof.
  destruct (rfind_rightmost s (a +:+ b)) as [[-> _] | (_ & Hocc & _)].
  - apply rfind_lower_bound.
  - apply occurs_at_shorter in Hocc.
    destruct (rfind_rightmost s a) as [[_ Hno] | (_ & _ & Hmax)].
    + exfalso. exact (Hno _ Hocc).
    + apply Hmax, Hocc.
Qed.

(** What the resolver returns, by the position of the first maximum. *)
Lemma get_satellite_name_cases (path : string) :
  exists (k : nat) (m : Z),
    sat_match_indices_of path !! k = Some m
    /\ (forall j r, sat_match_indices_of path !! j = Some r -> r <= m)
    /\ (forall j r, (j < k)%nat -> sat_match_indices_of path !! j = Some r -> r < m)
    /\ ((m = -1 /\ _get_satellite_name path = "UNKNOWN")
        \/ (m <> -1 /\ SATELLITE_NAMES !! k = Some (_get_satellite_name path))).
Proof.
  assert (Hne : sat_match_indices_of path <> []).
  { intros E. apply (f_equal length) in E.
    rewrite sat_match_indices_length in E. discriminate E. }
  destruct (argmax_first_max _ Hne) as (m & Hm & Hmax & Hfirst).
  exists (Np.argmax (sat_match_indices_of path)), m.
  split; [exact Hm|]. split; [exact Hmax|]. split; [exact Hfirst|].
  unfold _get_satellite_name. rewrite nth_lookup, Hm. cbn [default from_option id].
  destruct (Z.eqb_spec m (-1)) as [->|Hm1]; [left; auto | right].
  split; [exact Hm1|]. cbn [negb].
  pose proof (lookup_lt_Some _ _ _ Hm) as Hlt. rewrite sat_match_indices_length in Hlt.
  destruct (lookup_lt_is_Some_2 SATELLITE_NAMES _ Hlt) as [name Hname].
  rewrite nth_lookup, Hname. reflexivity.
Qed.

(** X1: the resolver never answers [K3A].  Wherever [K3A] occurs in a path,
    [K3] occurs at the same index, and [K3] comes before [K3A] in
    [SATELLITE_NAMES], so that the first maximum is never at [K3A]: a scene
    of the satellite K3A is classified as [K3]. *)
Theorem get_satellite_name_never_K3A (path : string) :
  _get_satellite_name path <> "K3A".
Proof.
  intros E.
  destruct (get_satellite_name_cases path) as (k & m & Hm & _ & Hfirst & Hcase).
  destruct Hcase as [[_ Hu] | [Hm1 Hname]]; [rewrite Hu in E; discriminate E|].
  rewrite E in Hname.
  assert (k = 4%nat) as ->.
  { do 7 (destruct k as [|k]; [try discriminate Hname; try reflexivity|]).
    discriminate Hname. }
  rewrite (sat_match_indices_lookup path 4 "K3A" eq_refl) in Hm. injection Hm as <-.
  pose proof (Hfirst 3%nat _ ltac:(lia) (sat_match_indices_lookup path 3 "K3" eq_refl)) as Hlt.
  pose proof (rfind_shorter (upper path) "K3" "A") as Hle.
  change ("K3" +:+ "A") with "K3A" in Hle. lia.
Qed.

(** X2: the resolver answers one of the seven names or [UNKNOWN], and it
    answers [UNKNOWN] exactly when none of the seven names occurs in the
    upper-cased path. *)
Theorem get_satellite_name_range (path : string) :
  (_get_satellite_name path ∈ SATELLITE_NAMES \/ _get_satellite_name path = "UNKNOWN")
  /\ (_get_satellite_name path = "UNKNOWN" <->
      forall name i, name ∈ SATELLITE_NAMES -> ~ occurs_at (upper path) name i).
Proof.
  destruct (get_satellite_name_cases path) as (k & m & Hm & Hmax & _ & Hcase).
  assert (Hunk : "UNKNOWN" ∉ SATELLITE_NAMES).
  { intros Hin. apply list_elem_of_In in Hin. cbn in Hin.
    repeat (destruct Hin as [Hin|Hin]; [discriminate Hin|]). exact Hin. }
  split.
  - destruct Hcase as [[_ ->] | [_ Hname]]; [right; reflexivity | left].
    apply list_elem_of_lookup. eauto.
  - split.
    + intros Hu name i Hname Hocc.
      destruct Hcase as [[-> _] | [_ Hk]].
      * apply list_elem_of_lookup in Hname as [j Hj].
        pose proof (Hmax _ _ (sat_match_indices_lookup path j name Hj)) as Hle.
        pose proof (rfind_lower_bound (upper path) name) as Hlow.
        assert (Hr : rfind (upper path) name = -1) by lia.
        exact (proj1 (rfind_absent _ _) Hr _ Hocc).
      * rewrite Hu in Hk. apply Hunk, list_elem_of_lookup. eauto.
    + intros Hno. destruct Hcase as [[_ Hu] | [Hm1 Hk]]; [exact Hu | exfalso].
      apply Hm1.
      rewrite (sat_match_indices_lookup path k _ Hk) in Hm. injection Hm as <-.
      apply (proj2 (rfind_absent _ _)). intros i. apply Hno, list_elem_of_lookup. eauto.
Qed.

Lemma upper_char_lower_char (c : ascii) : upper_char (lower_char c) = upper_char c.
Proof. destruct c as [[] [] [] [] [] [] [] []]; reflexivity. Qed.

Lemma upper_char_idem (c : ascii) : upper_char (upper_char c) = upper_char c.
Proof. destruct c as [[] [] [] [] [] [] [] []]; reflexivity. Qed.

Lemma upper_lower (s : string) : upper (lower s) = upper s.
Proof.
  induction s as [|c s IH]; [reflexivity|].
  cbn [lower upper]. rewrite IH, upper_char_lower_char. reflexivity.
Qed.

Lemma upper_idem (s : string) : upper (upper s) = upper s.
Proof.
  induction s as [|c s IH]; [reflexivity|].
  cbn [upper]. rewrite IH, upper_char_idem. reflexivity.
Qed.

(** X3: the answer of the resolver does not depend on the case of the
    letters of the path: the lower-cased and the upper-cased path are
    classified as the path itself. *)
Theorem get_satellite_name_ignores_case (path : string) :
  _get_satellite_name (lower path) = _get_satellite_name path
  /\ _get_satellite_name (upper path) = _get_satellite_name path.
Proof.
  unfold _get_satellite_name, sat_match_indices_of.
  rewrite upper_lower, upper_idem. split; reflexivity.
Qed.

End ResolverMore.

(** ** Duplicates and lookups *)

Section DuplicatesMore.

Lemma names_nil_inv (gdf : list Row) : names gdf = [] -> gdf = [].
Proof. destruct gdf; [reflexivity | discriminate]. Qed.

(** X4: [duplicated()] returns no record exactly when the names of the
    catalog are pairwise different. *)
Theorem duplicated_empty_iff_names_distinct (gdf : list Row) :
  duplicated gdf = [] <-> NoDup (names gdf).
Proof.
  rewrite NoDup_ListNoDup, (List.NoDup_count_occ string_dec). split.
  - intros E n. pose proof (duplicated_count gdf n) as Hc.
    rewrite E in Hc. cbn in Hc. lia.
  - intros Hnd. apply names_nil_inv.
    destruct (names (duplicated gdf)) as [|n rest] eqn:E; [reflexivity | exfalso].
    pose proof (duplicated_count gdf n) as Hc. rewrite E in Hc.
    cbn [count_occ] in Hc. destruct (string_dec n n); [|congruence].
    specialize (Hnd n). lia.
Qed.

Lemma exclude_duplicated_distinct (gdf : list Row) :
  NoDup (names gdf) -> exclude_duplicated gdf None = gdf.
Proof.
  induction gdf as [|r gdf IH] using rev_ind; intros Hnd; [reflexivity|].
  rewrite names_snoc in Hnd. apply NoDup_app in Hnd as (Hnd & Hdisj & _).
  rewrite exclude_duplicated_snoc, (IH Hnd).
  rewrite bool_decide_eq_false_2; [reflexivity|].
  intros Hin. apply (Hdisj _ Hin). apply list_elem_of_here.
Qed.

(** X5: [exclude_duplicated()] without an argument changes the catalog
    exactly when some name is repeated, and applying it a second time
    changes nothing. *)
Theorem exclude_duplicated_fixpoint (gdf : list Row) :
  (exclude_duplicated gdf None = gdf <-> NoDup (names gdf))
  /\ exclude_duplicated (exclude_duplicated gdf None) None
     = exclude_duplicated gdf None.
Proof.
  split.
  - split; [|apply exclude_duplicated_distinct].
    intros E. rewrite <- E. apply exclude_duplicated_NoDup.
  - apply exclude_duplicated_distinct, exclude_duplicated_NoDup.
Qed.

Lemma select_map_filter {A : Type} (p : A -> bool) (rows : list A) :
  Pandas.select rows (map p rows) = List.filter p rows.
Proof.
  induction rows as [|r rows IH]; [reflexivity|].
  cbn [map Pandas.select List.filter]. rewrite IH. reflexivity.
Qed.

Lemma exclude_other_filter (gdf other : list Row) :
  Pandas.select gdf (Pandas.invert (Pandas.isin (names gdf) (names other)))
  = List.filter (fun r : Row => negb (bool_decide (name r ∈ names other))) gdf.
Proof.
  rewrite <- select_map_filter. f_equal.
  unfold Pandas.invert, Pandas.isin. generalize (names other). intros vals.
  induction gdf as [|r gdf IH]; [reflexivity|].
  cbn [names map]. f_equal. exact IH.
Qed.

(** X6: given another manager that is not empty, [exclude_duplicated]
    removes the records whose name occurs in the other catalog and keeps
    all others in their order, repeated names among them included: no
    name of the other catalog is left, and a record whose name the other
    catalog does not have stays as often as it was there.  Another manager
    that is empty counts as none: the catalog is then rid of its own
    repeats instead. *)
Theorem exclude_duplicated_other (gdf other : list Row) :
  (other <> [] ->
     exclude_duplicated gdf (Some other)
     = List.filter (fun r : Row => negb (bool_decide (name r ∈ names other))) gdf)
  /\ (other <> [] ->
      forall r : Row, r ∈ exclude_duplicated gdf (Some other)
                      <-> r ∈ gdf /\ name r ∉ names other)
  /\ exclude_duplicated gdf (Some []) = exclude_duplicated gdf None.
Proof.
  assert (Hfilter : other <> [] ->
     exclude_duplicated gdf (Some other)
     = List.filter (fun r : Row => negb (bool_decide (name r ∈ names other))) gdf).
  { intros Hne. unfold exclude_duplicated.
    destruct other as [|o other]; [congruence|]. cbn [length Nat.eqb negb].
    apply exclude_other_filter. }
  split; [exact Hfilter|]. split; [|reflexivity].
  intros Hne r. rewrite (Hfilter Hne), list_elem_of_In, filter_In, <- list_elem_of_In.
  rewrite negb_true_iff, bool_decide_eq_false. reflexivity.
Qed.

Lemma get_absname_first (gdf : list Row) (n : string) :
  get_absname gdf n
  = option_map (fun r : Row => absname r) (head (List.filter (has_name n) gdf)).
Proof. unfold get_absname. destruct (List.filter (has_name n) gdf); reflexivity. Qed.

(** X7: [get_absname] fails (with the [IndexError] of [values[0]]) exactly
    on a name that the catalog does not have; on a name of the catalog it
    returns the path of the first record of that name, the records before
    it having other names; and [exclude_duplicated()] does not change what
    it returns for any name. *)
Theorem get_absname_first_record (gdf : list Row) (n : string) :
  (get_absname gdf n = None <-> n ∉ names gdf)
  /\ (forall p, get_absname gdf n = Some p ->
        exists (before : list Row) (r : Row) (after : list Row),
          gdf = before ++ r :: after /\ name r = n /\ absname r = p
          /\ n ∉ names before)
  /\ get_absname (exclude_duplicated gdf None) n = get_absname gdf n.
Proof.
  split; [|split].
  - unfold get_absname. split.
    + intros E Hin. destruct (filter_has_name_cons _ _ Hin) as (r & rest & Hf).
      rewrite Hf in E. discriminate E.
    + intros Hn. rewrite (filter_has_name_nil _ _ Hn). reflexivity.
  - intros p. unfold get_absname. induction gdf as [|r0 gdf IH]; [discriminate|].
    cbn [List.filter]. unfold has_name at 1.
    destruct (String.eqb_spec (name r0) n) as [E|E].
    + intros [= <-]. exists [], r0, gdf. repeat split; [exact E | apply not_elem_of_nil].
    + intros Hp. destruct (IH Hp) as (before & r & after & -> & Hr & Hpath & Hb).
      exists (r0 :: before), r, after. repeat split; try assumption.
      cbn [names map]. rewrite not_elem_of_cons. split; [congruence | exact Hb].
  - rewrite !get_absname_first, exclude_duplicated_first.
    destruct (List.filter (has_name n) gdf); reflexivity.
Qed.

Lemma filter_bool_split {A : Type} (p : A -> bool) (l : list A) :
  (length (List.filter (fun x => Bool.eqb (p x) true) l)
   + length (List.filter (fun x => Bool.eqb (p x) false) l))%nat = length l.
Proof.
  induction l as [|x l IH]; [reflexivity|].
  cbn [List.filter]. destruct (p x); cbn [Bool.eqb length]; lia.
Qed.

(** X8: the annotated and the not annotated records make up the catalog,
    and so do the inferenced and the not inferenced ones:
    [counts_by_annotated() + len(not_annotated())] and
    [counts_by_inferenced() + len(get_not_inferenced())] are [len(self)];
    the records of [not_annotated()] are those of the catalog without an
    annotation, in catalog order. *)
Theorem counts_complement (gdf : list Row) :
  (counts_by_annotated gdf + len (not_annotated gdf))%nat = len gdf
  /\ (counts_by_inferenced gdf + len (get_not_inferenced gdf))%nat = len gdf
  /\ sublist (not_annotated gdf) gdf
  /\ (forall r : Row, r ∈ not_annotated gdf <-> r ∈ gdf /\ is_anno r = false).
Proof.
  split; [exact (filter_bool_split (fun r : Row => is_anno r) gdf)|].
  split; [exact (filter_bool_split is_infer gdf)|]. split.
  - unfold not_annotated. induction gdf as [|r gdf IH]; [constructor|].
    cbn [List.filter]. destruct (Bool.eqb (is_anno r) false);
      [apply sublist_skip | apply sublist_cons]; exact IH.
  - intros r. unfold not_annotated.
    rewrite list_elem_of_In, filter_In, <- list_elem_of_In.
    destruct (is_anno r); cbn; intuition congruence.
Qed.

End DuplicatesMore.

(** ** Counting by a column *)

Section CountsMore.

Context {R : Type} (key : R -> string).

Lemma group_sizes_keys (df : list R) :
  map fst (group_sizes key df) = merge_sort String.le (Pandas.unique (map key df)).
Proof.
  unfold group_sizes. rewrite map_map. cbn [fst]. apply map_id.
Qed.

Lemma group_sizes_counts (df : list R) :
  map snd (group_sizes key df)
  = map (fun k => length (rows_with key k df))
        (merge_sort String.le (Pandas.unique (map key df))).
Proof. unfold group_sizes. rewrite map_map. reflexivity. Qed.

Lemma elem_of_sorted_keys (df : list R) (k : string) :
  k ∈ merge_sort String.le (Pandas.unique (map key df)) <-> exists r, r ∈ df /\ key r = k.
Proof.
  rewrite merge_sort_Permutation, elem_of_unique, list_elem_of_fmap. split.
  - intros (r & -> & Hr). eauto.
  - intros (r & Hr & <-). eauto.
Qed.

Lemma group_sizes_total (df : list R) :
  list_sum (map snd (group_sizes key df)) = length df.
Proof.
  rewrite group_sizes_counts, <- (map_map (fun k => rows_with key k df) length),
    <- length_concat.
  apply Permutation_length.
  rewrite concat_rows_with.
  - rewrite rows_among_all; [reflexivity|].
    intros r Hr. apply elem_of_sorted_keys. eauto.
  - rewrite merge_sort_Permutation. apply unique_NoDup.
Qed.

Lemma group_sizes_spec (df : list R) :
  Sorted String.le (map fst (group_sizes key df))
  /\ NoDup (map fst (group_sizes key df))
  /\ (forall k, k ∈ map fst (group_sizes key df) <-> exists r, r ∈ df /\ key r = k)
  /\ (forall k c, (k, c) ∈ group_sizes key df ->
        c = length (rows_with key k df) /\ (0 < c)%nat)
  /\ list_sum (map snd (group_sizes key df)) = length df.
Proof.
  rewrite group_sizes_keys.
  split; [apply Sorted_merge_sort; apply _|].
  split; [rewrite merge_sort_Permutation; apply unique_NoDup|].
  split; [apply elem_of_sorted_keys|]. split; [|apply group_sizes_total].
  intros k c Hkc. unfold group_sizes in Hkc.
  apply list_elem_of_fmap in Hkc as (k' & [= -> ->] & Hk').
  split; [reflexivity|].
  apply elem_of_sorted_keys in Hk' as (r & Hr & <-).
  assert (Hin : In r (rows_with key (key r) df)).
  { apply filter_In. split; [apply list_elem_of_In; exact Hr | apply String.eqb_refl]. }
  destruct (rows_with key (key r) df); [destruct Hin | cbn; lia].
Qed.

End CountsMore.

(** X9: the tables behind [counts_by_sat_names] and [counts_by_regions]
    have one row for each value that the column takes in the catalog, in
    ascending order without repeats, each with the number of records of
    that value, which is at least one; the counts add up to the size of
    the catalog and, with [is_only_anno], to the number of annotated
    records. *)
Theorem counts_by_column (gdf : list Row) :
  (Sorted String.le (map fst (counts_by_sat_names gdf))
   /\ NoDup (map fst (counts_by_sat_names gdf))
   /\ (forall k, k ∈ map fst (counts_by_sat_names gdf)
                 <-> exists r : Row, r ∈ gdf /\ sat_name r = k)
   /\ (forall k c, (k, c) ∈ counts_by_sat_names gdf ->
         c = length (sat_name_df gdf k) /\ (0 < c)%nat)
   /\ list_sum (map snd (counts_by_sat_names gdf)) = len gdf)
  /\ (Sorted String.le (map fst (counts_by_regions gdf false))
      /\ NoDup (map fst (counts_by_regions gdf false))
      /\ (forall k, k ∈ map fst (counts_by_regions gdf false)
                    <-> exists r : Row, r ∈ gdf /\ region r = k)
      /\ (forall k c, (k, c) ∈ counts_by_regions gdf false ->
            c = length (region_df gdf k) /\ (0 < c)%nat)
      /\ list_sum (map snd (counts_by_regions gdf false)) = len gdf)
  /\ list_sum (map snd (counts_by_regions gdf true)) = counts_by_annotated gdf.
Proof.
  split; [exact (group_sizes_spec (fun r : Row => sat_name r) gdf)|].
  split; [exact (group_sizes_spec region gdf)|].
  unfold counts_by_regions, counts_by_annotated. apply group_sizes_total.
Qed.

(** ** The seeded shuffle moves positions, not values *)

Section ShuffleMore.

Context `{PyRandom}.

Lemma swap_map {A B : Type} (f : A -> B) (x : list A) (i j : nat) :
  Py.swap (map f x) i j = map f (Py.swap x i j).
Proof.
  unfold Py.swap. rewrite !list_lookup_fmap.
  destruct (x !! i) as [a|]; [|reflexivity].
  destruct (x !! j) as [b|]; [|reflexivity].
  cbn. rewrite !list_fmap_insert. reflexivity.
Qed.

Lemma shuffle_loop_map {A B : Type} (f : A -> B) (i : nat) :
  forall (x : list A) (s : rng_state),
  exists x' s', Random.shuffle_loop i x s = (Ok x', s')
                /\ Random.shuffle_loop i (map f x) s = (Ok (map f x'), s').
Proof.
  induction i as [|i IH]; intros x s.
  - exists x, s. split; reflexivity.
  - cbn [Random.shuffle_loop]. unfold bind, Random.randbelow.
    destruct (_randbelow (S i + 1) s) as [j s1].
    rewrite swap_map. apply IH.
Qed.

Lemma seeded_shuffle_map {A B : Type} (f : A -> B) (x : list A) :
  seeded_shuffle (map f x) = map f (seeded_shuffle x)
  /\ state_after_shuffle (map f x) = state_after_shuffle x.
Proof.
  unfold seeded_shuffle, state_after_shuffle, Random.shuffle.
  rewrite length_map.
  destruct (shuffle_loop_map f (length x - 1) x (seed 42)) as (x' & s' & -> & ->).
  split; reflexivity.
Qed.

(** X10: the shuffle that the splits apply after [random.seed(42)] moves
    the positions of a list in a way that depends on its length only.
    Shuffling the names of a group, as [split_train_and_test] does, and
    shuffling its paths, as [split_n] does, rearranges the same rows in the
    same way, and two lists of one length are rearranged alike. *)
Theorem seeded_shuffle_by_position (g : list Row) :
  seeded_shuffle (names g) = names (seeded_shuffle g)
  /\ seeded_shuffle (map (fun r : Row => absname r) g)
     = map (fun r : Row => absname r) (seeded_shuffle g)
  /\ forall (A B : Type) (x : list A) (y : list B),
       length x = length y ->
       zip (seeded_shuffle x) (seeded_shuffle y) = seeded_shuffle (zip x y).
Proof.
  split; [apply (seeded_shuffle_map (fun r : Row => name r))|].
  split; [apply (seeded_shuffle_map (fun r : Row => absname r))|].
  intros A B x y Hlen.
  assert (Hx : seeded_shuffle x = map fst (seeded_shuffle (zip x y))).
  { rewrite <- (proj1 (seeded_shuffle_map fst (zip x y))).
    f_equal. symmetry. apply fst_zip. lia. }
  assert (Hy : seeded_shuffle y = map snd (seeded_shuffle (zip x y))).
  { rewrite <- (proj1 (seeded_shuffle_map snd (zip x y))).
    f_equal. symmetry. apply snd_zip. lia. }
  rewrite Hx, Hy. exact (zip_fst_snd _).
Qed.

End ShuffleMore.

(** Under the generator of CPython, a list of ten is rearranged as
    [range(10)] is. *)
Example shuffle_ten_positions :
  seeded_shuffle (map Z.of_nat (seq 0 10)) = [7; 3; 2; 8; 5; 6; 9; 4; 0; 1]
  /\ seeded_shuffle (names catalog_ten)
     = ["s7"; "s3"; "s2"; "s8"; "s5"; "s6"; "s9"; "s4"; "s0"; "s1"].
Proof. vm_compute. split; reflexivity. Qed.

(** ** The train and test split: errors and bounds *)

Section TrainTestMore.

Context `{PyRandom}.

Lemma first_failing_group ratio (gs : list (list Row)) :
  forallb (fun g => is_ok (n_test_file_of ratio (names g))) gs = false ->
  exists before g after e,
    gs = before ++ g :: after
    /\ forallb (fun g => is_ok (n_test_file_of ratio (names g))) before = true
    /\ n_test_file_of ratio (names g) = Raise e.
Proof.
  induction gs as [|g gs IH]; [discriminate|]. cbn [forallb].
  destruct (n_test_file_of ratio (names g)) as [n|e] eqn:Hg; cbn [is_ok andb].
  - intros Hgs. destruct (IH Hgs) as (before & g' & after & e & -> & Hb & He).
    exists (g :: before), g', after, e. split; [reflexivity|]. split; [|exact He].
    cbn [forallb]. rewrite Hg, Hb. reflexivity.
  - intros _. exists [], g, gs, e. auto.
Qed.

Lemma round_raises (x : float) (e : error) :
  Py.round x = Raise e ->
  e = OverflowError "cannot convert float infinity to integer"
  \/ e = ValueError "cannot convert float NaN to integer".
Proof.
  unfold Py.round. destruct (Prim2SF x); intros [=]; auto.
Qed.

(** X11: [split_train_and_test] returns its two lists exactly when
    [round(len(g) * ratio)] is an integer for every group [g]; otherwise it
    raises what [round] raises on the first group, in the order of the
    loops, whose product is not finite: an [OverflowError] for an infinite
    product, a [ValueError] for a NaN.  On an empty catalog it returns two
    empty lists whatever the ratio is. *)
Theorem split_train_and_test_raises (gdf : list Row) (ratio : float) (s : rng_state) :
  is_ok (fst (split_train_and_test gdf ratio s)) = rounds_ok ratio gdf
  /\ (rounds_ok ratio gdf = false ->
      exists before g after e,
        groups gdf = before ++ g :: after
        /\ forallb (fun g => is_ok (n_test_file_of ratio (names g))) before = true
        /\ n_test_file_of ratio (names g) = Raise e
        /\ fst (split_train_and_test gdf ratio s) = Raise e
        /\ (e = OverflowError "cannot convert float infinity to integer"
            \/ e = ValueError "cannot convert float NaN to integer"))
  /\ split_train_and_test [] ratio s = (Ok ([], []), s).
Proof.
  assert (Hfail : rounds_ok ratio gdf = false ->
      exists before g after e,
        groups gdf = before ++ g :: after
        /\ forallb (fun g => is_ok (n_test_file_of ratio (names g))) before = true
        /\ n_test_file_of ratio (names g) = Raise e
        /\ fst (split_train_and_test gdf ratio s) = Raise e
        /\ (e = OverflowError "cannot convert float infinity to integer"
            \/ e = ValueError "cannot convert float NaN to integer")).
  { intros Hbad.
    destruct (first_failing_group ratio (groups gdf) Hbad)
      as (before & g & after & e & Hgs & Hb & He).
    exists before, g, after, e. repeat (split; [assumption|]). split.
    - rewrite split_train_and_test_groups, Hgs. unfold split_all.
      rewrite for_each_app.
      destruct (split_all_spec ratio before Hb [] [] s) as (parts & s' & Hrun & _).
      unfold split_all in Hrun. rewrite Hrun. cbn [for_each]. unfold bind.
      rewrite split_group_run, He. reflexivity.
    - exact (round_raises _ _ He). }
  split; [|split; [exact Hfail | reflexivity]].
  destruct (rounds_ok ratio gdf) eqn:Hok.
  - rewrite split_train_and_test_groups.
    destruct (split_all_spec ratio (groups gdf) Hok [] [] s) as (parts & s' & -> & _).
    reflexivity.
  - destruct (Hfail eq_refl) as (_ & _ & _ & e & _ & _ & _ & -> & _). reflexivity.
Qed.

(** X12: a number of test files outside the group does not raise; it is
    read as a slice bound.  With [n = round(len * ratio)]: for [n >= len]
    the whole shuffled group goes to test; for [n = 0] or [n <= -len] the
    whole group goes to train; for [-len < n < 0], which a negative ratio
    gives, test takes all but the last [-n] names and train those last
    [-n]. *)
Theorem split_group_bounds (ratio : float) (filenames train test : list string)
  (s : rng_state) (n : Z) :
  n_test_file_of ratio filenames = Ok n ->
  let shuffled := seeded_shuffle filenames in
  let size := Z.of_nat (length filenames) in
  (size <= n ->
     fst (split_group ratio filenames (train, test) s) = Ok (train, test ++ shuffled))
  /\ (n = 0 \/ n <= - size ->
     fst (split_group ratio filenames (train, test) s) = Ok (train ++ shuffled, test))
  /\ (- size < n < 0 ->
     fst (split_group ratio filenames (train, test) s)
     = Ok (train ++ drop (Z.to_nat (size + n)) shuffled,
           test ++ take (Z.to_nat (size + n)) shuffled)
     /\ length (drop (Z.to_nat (size + n)) shuffled) = Z.to_nat (- n)).
Proof.
  intros Hn shuffled size.
  pose proof (seeded_shuffle_length filenames) as Hlen. fold shuffled in Hlen.
  rewrite split_group_run, Hn. cbn [fst]. fold shuffled.
  unfold Py.slice_from, Py.slice_to, Py.slice_bound. rewrite Hlen. fold size.
  split; [|split].
  - intros Hge. destruct (Z.ltb_spec n 0); [lia|].
    replace (Z.to_nat (Z.min n size)) with (length shuffled) by lia.
    rewrite drop_all, firstn_all, app_nil_r. reflexivity.
  - intros Hle. replace (if n <? 0 then Z.to_nat (Z.max 0 (size + n))
                         else Z.to_nat (Z.min n size)) with 0%nat
      by (destruct (Z.ltb_spec n 0); lia).
    rewrite drop_0, take_0, app_nil_r. reflexivity.
  - intros Hneg. destruct (Z.ltb_spec n 0); [|lia].
    replace (Z.max 0 (size + n)) with (size + n) by lia.
    split; [reflexivity|]. rewrite length_drop. lia.
Qed.

End TrainTestMore.

(** A group of three names and a ratio of -0.5: [round(-1.5) = -2]. *)
Lemma split_group_bounds_witness :
  n_test_file_of (-0.5) ["a"; "b"; "c"] = Ok (-2)
  /\ fst (split_group (-0.5) ["a"; "b"; "c"] ([], []) (seed 0))
     = Ok ([] ++ drop (Z.to_nat (3 + -2)) (seeded_shuffle ["a"; "b"; "c"]),
           [] ++ take (Z.to_nat (3 + -2)) (seeded_shuffle ["a"; "b"; "c"])).
Proof.
  split; [reflexivity|].
  pose proof (split_group_bounds (-0.5) ["a"; "b"; "c"] [] [] (seed 0) (-2) eq_refl)
    as (_ & _ & Hneg).
  apply Hneg. cbn. lia.
Defined.

(** The catalog [x, y, x]: a ratio of -0.5 gives [n = -1] for the group of
    two, whose test list then holds one name, and [n = 0] for the group of
    one; a ratio of 7 sends every name to test; an infinite ratio and a
    NaN raise. *)
Example split_with_odd_ratios :
  fst (split_train_and_test catalog_xyx (-0.5) (seed 0)) = Ok (["x"; "y"], ["x"])
  /\ fst (split_train_and_test catalog_xyx infinity (seed 0))
     = Raise (OverflowError "cannot convert float infinity to integer")
  /\ fst (split_train_and_test catalog_xyx nan (seed 0))
     = Raise (ValueError "cannot convert float NaN to integer")
  /\ fst (split_train_and_test catalog_xyx 7 (seed 0)) = Ok ([], ["x"; "x"; "y"]).
Proof. vm_compute. repeat split; reflexivity. Qed.

(** ** The split into [n]: sections, destinations, paths *)

Section SplitNMore.

Context `{PyRandom} `{FileSystem}.

Lemma groups_nonempty (gdf : list Row) : gdf <> [] -> groups gdf <> [].
Proof.
  intros Hne E. pose proof (concat_groups gdf) as Hp. rewrite E in Hp.
  cbn in Hp. apply Permutation_nil_l in Hp. congruence.
Qed.

Lemma make_destinations_nonpositive (n : Z) (dst_paths : dst_arg) w :
  n <= 0 -> make_destinations n dst_paths w = (Ok tt, w).
Proof.
  intros Hn. unfold make_destinations. destruct dst_paths as [l|d]; [reflexivity|].
  unfold destinations, Py.range.
  replace (Z.to_nat n) with 0%nat by lia. reflexivity.
Qed.

Lemma split_n_group_nonpositive (n : Z) (dsts : list string) (is_move : bool)
  (filenames : list string) (w : rng_state * fs) :
  n <= 0 ->
  split_n_group n dsts is_move filenames w
  = (Raise (ValueError "number sections must be larger than 0."),
     (state_after_shuffle filenames, snd w)).
Proof.
  intros Hn. unfold split_n_group, bind, on_rng, Random.set_seed, lift. cbn [fst snd].
  rewrite seeded_shuffle_run. unfold array_split.
  destruct (Z.leb_spec n 0); [reflexivity | lia].
Qed.

(** X13: with [n <= 0], [split_n] on a catalog that is not empty raises
    the [ValueError] of [np.array_split] at its first group, before any
    directory is made, moved or copied: the file system is left as it
    was.  On an empty catalog it raises nothing. *)
Theorem split_n_nonpositive (gdf : list Row) (n : Z) (dst_paths : dst_arg)
  (is_move : bool) (w : rng_state * fs) :
  n <= 0 ->
  (gdf <> [] ->
     fst (split_n gdf n dst_paths is_move w)
     = Raise (ValueError "number sections must be larger than 0.")
     /\ snd (snd (split_n gdf n dst_paths is_move w)) = snd w)
  /\ split_n [] n dst_paths is_move w = (Ok tt, w).
Proof.
  intros Hn. split.
  - intros Hne. rewrite split_n_groups. unfold bind.
    rewrite (make_destinations_nonpositive n dst_paths w Hn).
    pose proof (groups_nonempty gdf Hne) as Hg.
    destruct (groups gdf) as [|g gs]; [congruence|].
    cbn [for_each]. unfold bind.
    rewrite split_n_group_nonpositive by exact Hn. split; reflexivity.
  - unfold split_n, bind. rewrite (make_destinations_nonpositive n dst_paths w Hn).
    reflexivity.
Qed.

Lemma zip_take_l {A B : Type} (l : list A) (k : list B) :
  zip l k = zip (take (length k) l) k.
Proof.
  revert k. induction l as [|x l IH]; intros [|y k]; try reflexivity.
  cbn. f_equal. apply IH.
Qed.

Lemma assignments_take {A : Type} (chunks : list (list A)) (dsts : list string) :
  assignments chunks dsts = assignments (take (length dsts) chunks) dsts.
Proof. unfold assignments. rewrite <- zip_take_l. reflexivity. Qed.

(** X14: [split_n] pairs chunks and destinations with [zip]; when the list
    of destinations is shorter than [n], the chunks beyond it are dropped
    without a word: the files of these chunks are neither moved nor
    copied, and with an empty list of destinations nothing is transferred
    at all. *)
Theorem split_n_group_short_destinations (n : Z) (dsts : list string)
  (is_move : bool) (filenames : list string) (w : rng_state * fs) :
  1 <= n ->
  exists chunks : list (list string),
    array_split (seeded_shuffle filenames) n = Ok chunks
    /\ length (assignments chunks dsts) = Nat.min (Z.to_nat n) (length dsts)
    /\ split_n_group n dsts is_move filenames w
       = for_each (assignments (take (length dsts) chunks) dsts)
                  (transfer_chunk is_move) tt
                  (state_after_shuffle filenames, snd w)
    /\ (dsts = [] ->
        split_n_group n dsts is_move filenames w
        = (Ok tt, (state_after_shuffle filenames, snd w))).
Proof.
  intros Hn.
  destruct (array_split_spec (seeded_shuffle filenames) n Hn)
    as (chunks & Hsplit & Hlen & _).
  exists chunks. split; [exact Hsplit|]. split; [|split].
  - unfold assignments. rewrite length_imap, length_zip_with, Hlen. reflexivity.
  - rewrite (split_n_group_run n dsts is_move filenames chunks w Hsplit).
    rewrite <- assignments_take. reflexivity.
  - intros ->. rewrite (split_n_group_run n [] is_move filenames chunks w Hsplit).
    unfold assignments. destruct chunks; reflexivity.
Qed.

End SplitNMore.

(** ** Paths *)

Section PathsMore.

Import PyStr OsPath.

Lemma str_app_assoc (a b c : string) : (a +:+ b) +:+ c = a +:+ b +:+ c.
Proof.
  induction a as [|x a IH]; [reflexivity|].
  change (String x ((a +:+ b) +:+ c) = String x (a +:+ b +:+ c)).
  rewrite IH. reflexivity.
Qed.

Lemma str_app_nil_r (a : string) : a +:+ "" = a.
Proof.
  induction a as [|x a IH]; [reflexivity|].
  change (String x (a +:+ "") = String x a). rewrite IH. reflexivity.
Qed.





Context `{FileSystem}.


Lemma length_drop_str (n : nat) (s : string) :
  String.length (drop_str n s) = (String.length s - n)%nat.
Proof.
  revert s. induction n as [|n IH]; intros [|c s]; cbn; try reflexivity. apply IH.
Qed.

Lemma occurs_at_length (s sub : string) (i : Z) :
  occurs_at s sub i -> i + Z.of_nat (String.length sub) <= Z.of_nat (String.length s).
Proof.
  intros (pre & post & -> & <-). rewrite !length_append_str. lia.
Qed.

Lemma drop_str_occurrence (s sub : string) (i : Z) :
  occurs_at s sub i ->
  exists post, drop_str (Z.to_nat i) s = sub +:+ post
               /\ s = take_str (Z.to_nat i) s +:+ sub +:+ post.
Proof.
  intros (pre & post & -> & <-). exists post. rewrite Nat2Z.id.
  assert (E : drop_str (String.length pre) (pre +:+ sub +:+ post) = sub +:+ post)
    by apply drop_str_append.
  split; [exact E|].
  pose proof (take_drop_str (String.length pre) (pre +:+ sub +:+ post)) as T.
  rewrite E in T. symmetry. exact T.
Qed.

(** X16: the part of a source directory that is kept under a destination,
    [src_dir[src_dir.rfind('scenes'):]].  When [scenes] occurs in the
    directory, it is the rest of the directory from the last occurrence
    on.  When it does not occur, [rfind] is [-1] and the slice is the last
    character of the directory (nothing for the empty string), so that
    such a scene lands in a directory named by one character. *)
Theorem from_scenes_anchor (src_dir : string) :
  (forall i, rfind src_dir "scenes" = i -> 0 <= i ->
     exists post,
       from_scenes src_dir = "scenes" +:+ post
       /\ src_dir = take_str (Z.to_nat i) src_dir +:+ from_scenes src_dir
       /\ forall j, occurs_at src_dir "scenes" j -> j <= i)
  /\ ((forall i, ~ occurs_at src_dir "scenes" i) ->
      from_scenes src_dir = drop_str (String.length src_dir - 1) src_dir
      /\ (src_dir <> "" -> String.length (from_scenes src_dir) = 1%nat)
      /\ endswith src_dir (from_scenes src_dir) = true).
Proof.
  unfold from_scenes, Py.str_slice_from. split.
  - intros i Hi H0.
    destruct (rfind_rightmost src_dir "scenes") as [[Hr _] | (_ & Hocc & Hmax)];
      [lia|]. rewrite Hi in Hocc, Hmax |- *.
    pose proof (occurs_at_length _ _ _ Hocc) as Hlen.
    rewrite slice_bound_in_range by lia.
    destruct (drop_str_occurrence _ _ _ Hocc) as (post & Hdrop & Hs).
    exists post. split; [exact Hdrop|]. split; [|exact Hmax].
    rewrite Hdrop. exact Hs.
  - intros Hno. rewrite (proj2 (rfind_absent _ _) Hno).
    assert (Hb : Py.slice_bound (-1) (String.length src_dir)
                 = (String.length src_dir - 1)%nat).
    { unfold Py.slice_bound. cbn [Z.ltb Z.compare]. lia. }
    rewrite Hb. split; [reflexivity|]. split.
    + intros Hne. rewrite length_drop_str.
      destruct src_dir; [congruence | cbn; lia].
    + apply endswith_spec. exists (take_str (String.length src_dir - 1) src_dir).
      symmetry. apply take_drop_str.
Qed.

Lemma splitext_parts (p : string) :
  fst (splitext p) +:+ snd (splitext p) = p
  /\ (snd (splitext p) = "" \/ exists rest, snd (splitext p) = "." +:+ rest).
Proof.
  unfold splitext.
  destruct ((rfind p sep <? rfind p ".") && _)%bool eqn:Hc; cbn [fst snd].
  - split; [apply take_drop_str | right].
    apply andb_true_iff in Hc as [Hlt _]. apply Z.ltb_lt in Hlt.
    pose proof (rfind_lower_bound p sep).
    destruct (rfind_rightmost p ".") as [[Hr _] | (_ & Hocc & _)]; [lia|].
    destruct (drop_str_occurrence _ _ _ Hocc) as (post & Hdrop & _). eauto.
  - split; [apply str_app_nil_r | left; reflexivity].
Qed.

(** In [pre ++ tail = a ++ rest] with [pre] at least as long as [a], the
    string [pre] begins with [a]. *)
Lemma append_split (pre tail a rest : string) :
  pre +:+ tail = a +:+ rest -> (String.length a <= String.length pre)%nat ->
  exists m, pre = a +:+ m /\ rest = m +:+ tail.
Proof.
  revert pre. induction a as [|c a IH]; intros pre E Hlen.
  - exists pre. split; [reflexivity | symmetry; exact E].
  - destruct pre as [|d pre]; [cbn in Hlen; lia|].
    injection E as -> E. destruct (IH pre E) as (m & -> & ->); [cbn in Hlen; lia|].
    exists m. split; reflexivity.
Qed.

Lemma rfind_unique (s sub : string) (r : Z) :
  rightmost_index s sub r -> rfind s sub = r.
Proof.
  intros Hr. destruct (rfind_rightmost s sub) as [[E Hno] | (H0 & Hocc & Hmax)];
    destruct Hr as [[-> Hno'] | (H0' & Hocc' & Hmax')].
  - exact E.
  - exfalso. exact (Hno _ Hocc').
  - exfalso. exact (Hno' _ Hocc).
  - pose proof (Hmax _ Hocc'). pose proof (Hmax' _ Hocc). lia.
Qed.

(** The last separator of [a/name], for a name without separator. *)
Lemma rfind_sep_append (a name : string) :
  (forall i, ~ occurs_at name sep i) ->
  rfind (a +:+ sep +:+ name) sep = Z.of_nat (String.length a).
Proof.
  intros Hno. apply rfind_unique. right. split; [lia|]. split.
  - exists a, name. split; reflexivity.
  - intros j (pre & post & E & <-).
    destruct (Nat.le_gt_cases (String.length pre) (String.length a)) as [|Hgt]; [lia|].
    exfalso.
    rewrite <- (str_app_assoc a sep name) in E.
    destruct (append_split pre (sep +:+ post) (a +:+ sep) name (eq_sym E)) as (m & _ & Hname).
    { rewrite length_append_str. cbn. lia. }
    apply (Hno (Z.of_nat (String.length m))). exists m, post. split; [exact Hname | reflexivity].
Qed.

Lemma no_sep_not_absolute (name : string) :
  (forall i, ~ occurs_at name sep i) -> startswith name sep = false.
Proof.
  intros Hno. destruct (startswith name sep) eqn:E; [|reflexivity].
  exfalso. apply (Hno 0). apply occurs_at_zero. exact E.
Qed.

(** X17: a file name without a separator, joined to a directory, is read
    back by [basename], and [splitext] cuts a path into two parts that
    make it up again, the second one empty or beginning with a dot. *)
Theorem basename_join_splitext (root name : string) :
  (forall i, ~ occurs_at name sep i) ->
  basename (join root name) = name
  /\ fst (splitext (basename (join root name)))
     +:+ snd (splitext (basename (join root name))) = name
  /\ forall p, fst (splitext p) +:+ snd (splitext p) = p
               /\ (snd (splitext p) = "" \/ exists rest, snd (splitext p) = "." +:+ rest).
Proof.
  intros Hno.
  assert (Hbase : basename (join root name) = name).
  { unfold join. rewrite (no_sep_not_absolute name Hno).
    destruct (String.eqb_spec root "") as [->|Hroot]; cbn [orb].
    - unfold basename. change ("" +:+ name) with name.
      rewrite (proj2 (rfind_absent name sep) Hno). reflexivity.
    - destruct (endswith root sep) eqn:Hends.
      + apply endswith_spec in Hends as [a ->].
        rewrite str_app_assoc. unfold basename.
        rewrite rfind_sep_append by exact Hno.
        replace (Z.to_nat (Z.of_nat (String.length a) + 1))
          with (String.length (a +:+ sep)) by (rewrite length_append_str; cbn; lia).
        rewrite <- str_app_assoc. apply drop_str_append.
      + unfold basename. rewrite rfind_sep_append by exact Hno.
        replace (Z.to_nat (Z.of_nat (String.length root) + 1))
          with (String.length (root +:+ sep)) by (rewrite length_append_str; cbn; lia).
        rewrite <- str_app_assoc. apply drop_str_append. }
  split; [exact Hbase|]. split; [rewrite Hbase; apply splitext_parts|].
  apply splitext_parts.
Qed.

End PathsMore.

(** ** The catalog as built *)

Section BuildMore.

Context `{Gdal} `{FileSystem}.
Import OsPath.

Lemma records_diagnostics_length (disk : fs) (paths : list string) :
  forallb builds paths = true ->
  (length (records_of disk paths) + length (diagnostics_of paths) = length paths)%nat.
Proof.
  unfold records_of, diagnostics_of.
  induction paths as [|path paths IH]; [reflexivity|].
  cbn [forallb]. intros Hall. apply andb_true_iff in Hall as [Hpath Hall].
  specialize (IH Hall). cbn [flat_map]. rewrite !length_app.
  unfold builds in Hpath. destruct (gdal_Open path) as [r|]; [|cbn [length]; lia].
  pose proof (scene_info_of_footprint disk path r) as Hinfo.
  destruct (footprint r) as [poly|e]; [|discriminate].
  destruct Hinfo as (rec & -> & _). cbn [length]. lia.
Qed.

Lemma records_of_absnames (disk : fs) (paths : list string) :
  forallb builds paths = true ->
  map absname (records_of disk paths)
  = List.filter (fun path => bool_decide (is_Some (gdal_Open path))) paths.
Proof.
  unfold records_of. induction paths as [|path paths IH]; [reflexivity|].
  cbn [forallb]. intros Hall. apply andb_true_iff in Hall as [Hpath Hall].
  cbn [flat_map List.filter]. rewrite map_app, (IH Hall).
  unfold builds in Hpath. destruct (gdal_Open path) as [r|] eqn:E.
  - rewrite bool_decide_eq_true_2 by eauto.
    pose proof (scene_info_of_footprint disk path r) as Hinfo.
    destruct (footprint r) as [poly|e]; [|discriminate].
    destruct Hinfo as (rec & Hrec & _). rewrite Hrec. cbn [map app].
    rewrite (proj1 (scene_info_fields disk path r rec Hrec)). reflexivity.
  - rewrite bool_decide_eq_false_2 by (intros [? ?]; discriminate). reflexivity.
Qed.

(** X18: what holds of the catalog that [__init__] builds.  Every kept
    path leaves either a record or a diagnostic, never both and never
    neither; the records come in the order of the kept paths that open;
    and in every record [name] and [ext] put together give back the file
    name of [absname], [ext] is empty or begins with a dot, [sat_name] is
    what the resolver makes of [absname], and [is_anno] tells whether the
    label file beside [absname] was there. *)
Theorem build_record_invariants (disk : fs) (dirs : list string)
  (name_suffixes : list (option string)) (img_ext : list string)
  (built : list SceneInfo) (printed : list string) :
  build disk dirs name_suffixes img_ext = (Ok built, printed) ->
  let paths := all_kept_paths disk dirs name_suffixes img_ext in
  (length built + length printed = length paths)%nat
  /\ map absname built
     = List.filter (fun path => bool_decide (is_Some (gdal_Open path))) paths
  /\ forall rec : SceneInfo, rec ∈ built ->
       absname rec ∈ paths
       /\ is_Some (gdal_Open (absname rec))
       /\ name rec +:+ ext rec = basename (absname rec)
       /\ (ext rec = "" \/ exists rest, ext rec = "." +:+ rest)
       /\ sat_name rec = _get_satellite_name (absname rec)
       /\ is_anno rec
          = os_path_exists (fst (splitext (absname rec)) +:+ ".label") disk.
Proof.
  intros Hbuild paths.
  assert (Hall : forallb builds paths = true).
  { rewrite <- (build_is_ok disk dirs name_suffixes img_ext), Hbuild. reflexivity. }
  rewrite (build_spec _ _ _ _ Hall) in Hbuild. fold paths in Hbuild.
  injection Hbuild as <- <-.
  split; [apply records_diagnostics_length, Hall|].
  split; [apply records_of_absnames, Hall|].
  intros rec Hrec. apply elem_of_records_of in Hrec as (path & r & Hpath & Hopen & Hinfo).
  destruct (scene_info_fields disk path r rec Hinfo) as (-> & -> & -> & -> & -> & _).
  destruct (splitext_parts (basename path)) as [Hparts Hext].
  split; [exact Hpath|]. split; [eauto|]. split; [exact Hparts|].
  split; [exact Hext|]. split; reflexivity.
Qed.

End BuildMore.

(** ** The map *)

Section MapMore.

Variables template_frond template_end : string.

Lemma map_rows_with_colour (gdf : list Row) (sat : string) :
  map (folium_polygon (default "" (SATELLITE_COLORS !! sat))) (sat_name_df gdf sat)
  = map (fun r : Row => folium_polygon (default "" (SATELLITE_COLORS !! sat_name r)) r)
        (sat_name_df gdf sat).
Proof.
  apply map_ext_in. intros r Hr. unfold sat_name_df in Hr.
  apply filter_In in Hr as [_ Hsat]. apply String.eqb_eq in Hsat.
  rewrite Hsat. reflexivity.
Qed.

(** X19: on a catalog all of whose satellite names have a colour,
    [vis_on_map] draws the records satellite by satellite, the satellites
    in the order in which the catalog first has them and the records of
    one satellite in the order of the catalog.  Each record is drawn once,
    in the colour of its satellite and with its name as tooltip.  The
    legend is the template around one line per satellite name of the
    catalog, no name twice. *)
Theorem map_view_content (gdf : list Row) :
  (forall r : Row, r ∈ gdf -> is_Some (SATELLITE_COLORS !! sat_name r)) ->
  let colour_of := fun sat => default "" (SATELLITE_COLORS !! sat) in
  let drawn := fun r : Row => folium_polygon (colour_of (sat_name r)) r in
  exists m legend,
    vis_on_map template_frond template_end gdf = Ok (m, legend)
    /\ m = flat_map (fun sat => map drawn (sat_name_df gdf sat)) (sat_names gdf)
    /\ m ≡ₚ map drawn gdf
    /\ map tooltip m ≡ₚ names gdf
    /\ legend = template_frond
                +:+ String.concat ""
                      (map (fun sat => legend_line (colour_of sat) sat) (sat_names gdf))
                +:+ template_end
    /\ NoDup (sat_names gdf).
Proof.
  intros Hall colour_of drawn.
  assert (Hkeys : forall k, k ∈ sat_names gdf -> is_Some (SATELLITE_COLORS !! k)).
  { intros k Hk. apply elem_of_sat_names in Hk as (r & Hr & <-). apply Hall, Hr. }
  assert (Hperm : flat_map (fun sat => map drawn (sat_name_df gdf sat)) (sat_names gdf)
                  ≡ₚ map drawn gdf).
  { rewrite flat_map_concat_map, <- (map_map (sat_name_df gdf) (map drawn)).
    rewrite <- concat_map. apply Permutation_map.
    exact (concat_by_unique (fun r : Row => sat_name r) gdf). }
  eexists _, _. unfold vis_on_map, get_legend.
  rewrite (for_each_pure_appends (sat_names gdf) legend_item
             (fun sat => [legend_line (colour_of sat) sat]))
    by (intros; apply legend_item_ok, Hkeys; assumption).
  rewrite (for_each_pure_appends (sat_names gdf) _
             (fun sat => map drawn (sat_name_df gdf sat)))
    by (intros; rewrite add_polygons_ok by (apply Hkeys; assumption);
        rewrite map_rows_with_colour; reflexivity).
  cbn [app]. rewrite flat_map_singleton.
  split; [reflexivity|]. split; [reflexivity|]. split; [exact Hperm|].
  split; [|split; [reflexivity | apply unique_NoDup]].
  rewrite Hperm, map_map. reflexivity.
Qed.

End MapMore.

(** ** Moving and copying *)

Section FileOperationsMore.

Context `{FileSystem}.
Import OsPath.

Lemma duplicated_distinct (gdf : list Row) : NoDup (names gdf) -> duplicated gdf = [].
Proof.
  induction gdf as [|r gdf IH] using rev_ind; intros Hnd; [reflexivity|].
  rewrite names_snoc in Hnd. apply NoDup_app in Hnd as (Hnd & Hdisj & _).
  rewrite duplicated_snoc, (IH Hnd).
  rewrite bool_decide_eq_false_2; [reflexivity|].
  intros Hin. apply (Hdisj _ Hin). apply list_elem_of_here.
Qed.

Lemma duplicated_exclude_length (gdf : list Row) :
  (length (duplicated gdf) + length (exclude_duplicated gdf None) = length gdf)%nat.
Proof.
  induction gdf as [|r gdf IH] using rev_ind; [reflexivity|].
  rewrite duplicated_snoc, exclude_duplicated_snoc, !length_app.
  case_bool_decide; cbn [length]; lia.
Qed.

(** A loop whose body does nothing on the elements it meets. *)
Lemma for_each_idle {A : Type} (xs : list A) (body : A -> unit -> M fs unit) (disk : fs) :
  (forall x, x ∈ xs -> body x tt disk = (Ok tt, disk)) ->
  for_each xs body tt disk = (Ok tt, disk).
Proof.
  induction xs as [|x xs IH]; intros Hidle; [reflexivity|].
  cbn [for_each]. unfold bind. rewrite Hidle by left.
  apply IH. intros y Hy. apply Hidle. right. exact Hy.
Qed.

(** X20: [move_duplicated] asks for one move per record that
    [duplicated()] returns, of the directory of that record, in the order
    of the catalog: as many moves as the catalog has records beyond the
    first of each name.  On a catalog without repeated names, hence on any
    catalog after [exclude_duplicated()], it leaves the file system as it
    is. *)
Theorem move_duplicated_moves (gdf : list Row) (dst_dir : string) (disk : fs) :
  move_duplicated gdf dst_dir disk
  = for_each (duplicated gdf)
             (fun (r : Row) _ => shutil_move (dirname (absname r)) dst_dir) tt disk
  /\ (length (duplicated gdf) + length (Pandas.unique (names gdf)) = length gdf)%nat
  /\ (NoDup (names gdf) -> move_duplicated gdf dst_dir disk = (Ok tt, disk))
  /\ move_duplicated (exclude_duplicated gdf None) dst_dir disk = (Ok tt, disk).
Proof.
  assert (Hrun : forall g, move_duplicated g dst_dir disk
                  = for_each (duplicated g)
                      (fun (r : Row) _ => shutil_move (dirname (absname r)) dst_dir) tt disk).
  { intros g. unfold move_duplicated. apply for_each_map. }
  split; [apply Hrun|]. split; [|split].
  - pose proof (duplicated_exclude_length gdf) as Hlen.
    assert (Hp : names (exclude_duplicated gdf None) ≡ₚ Pandas.unique (names gdf)).
    { apply NoDup_Permutation;
        [apply exclude_duplicated_NoDup | apply unique_NoDup |].
      intros n. rewrite names_exclude_duplicated, elem_of_unique. reflexivity. }
    apply Permutation_length in Hp. unfold names in Hp at 1.
    rewrite length_map in Hp. lia.
  - intros Hnd. rewrite Hrun, (duplicated_distinct gdf Hnd). reflexivity.
  - rewrite Hrun, (duplicated_distinct _ (exclude_duplicated_NoDup gdf)). reflexivity.
Qed.

Variable shutil_copy : string -> string -> M fs unit.

Lemma copy_labels_app (g1 g2 : list Row) (dst_dir : string) (disk : fs) :
  copy_labels shutil_copy (g1 ++ g2) dst_dir disk
  = match copy_labels shutil_copy g1 dst_dir disk with
    | (Ok _, disk') => copy_labels shutil_copy g2 dst_dir disk'
    | (Raise e, disk') => (Raise e, disk')
    end.
Proof.
  unfold copy_labels. rewrite map_app, for_each_app.
  destruct (for_each _ _ tt disk) as [[[]|e] disk']; reflexivity.
Qed.

Lemma copy_labels_idle (gdf : list Row) (dst_dir : string) (disk : fs) :
  (forall r : Row, r ∈ gdf ->
     os_path_exists (fst (splitext (absname r)) +:+ ".label") disk = false) ->
  copy_labels shutil_copy gdf dst_dir disk = (Ok tt, disk).
Proof.
  intros Hno. unfold copy_labels. rewrite for_each_map. apply for_each_idle.
  intros r Hr. rewrite (Hno r Hr). reflexivity.
Qed.

End FileOperationsMore.

Section LabelsMore.

Context `{Gdal} `{FileSystem}.
Import OsPath.

Variable shutil_copy : string -> string -> M fs unit.

Lemma counts_by_annotated_zero (gdf : list Row) :
  counts_by_annotated gdf = 0%nat -> forall r : Row, r ∈ gdf -> is_anno r = false.
Proof.
  unfold counts_by_annotated. induction gdf as [|r0 gdf IH]; intros Hz r Hr.
  - inversion Hr.
  - cbn [List.filter] in Hz. destruct (is_anno r0) eqn:E0; cbn in Hz; [discriminate|].
    apply elem_of_cons in Hr as [->|Hr]; [exact E0 | exact (IH Hz r Hr)].
Qed.

(** X21: [copy_labels] looks for the label file at the place where the
    builder looked to set [is_anno].  On the file system that the catalog
    was built from, it therefore passes over the records that are not
    annotated: it does nothing when no record is annotated, and its first
    copy is that of the label of the first annotated record, from where it
    goes on with the records that follow. *)
Theorem copy_labels_of_built (disk : fs) (dirs : list string)
  (name_suffixes : list (option string)) (img_ext : list string)
  (built : list SceneInfo) (gdf : list Row) (dst_dir : string) :
  fst (build disk dirs name_suffixes img_ext) = Ok built ->
  (forall r : Row, r ∈ gdf -> scene r ∈ built) ->
  (counts_by_annotated gdf = 0%nat ->
     copy_labels shutil_copy gdf dst_dir disk = (Ok tt, disk))
  /\ (forall (pre : list Row) (r : Row) (rest : list Row),
        gdf = pre ++ r :: rest -> counts_by_annotated pre = 0%nat ->
        is_anno r = true ->
        copy_labels shutil_copy gdf dst_dir disk
        = bind (shutil_copy (fst (splitext (absname r)) +:+ ".label") dst_dir)
               (fun _ => copy_labels shutil_copy rest dst_dir) disk).
Proof.
  intros Hbuild Hbuilt.
  assert (Hanno : forall r : Row, r ∈ gdf ->
            os_path_exists (fst (splitext (absname r)) +:+ ".label") disk = is_anno r).
  { intros r Hr. specialize (Hbuilt r Hr).
    rewrite (proj2 (build_returns _ _ _ _ _ Hbuild)) in Hbuilt.
    apply elem_of_records_of in Hbuilt as (path & ras & _ & _ & Hinfo).
    destruct (scene_info_fields disk path ras _ Hinfo) as (-> & _ & _ & _ & -> & _).
    reflexivity. }
  split.
  - intros Hz. apply copy_labels_idle. intros r Hr.
    rewrite (Hanno r Hr). exact (counts_by_annotated_zero gdf Hz r Hr).
  - intros pre r rest -> Hz Hr.
    rewrite copy_labels_app, copy_labels_idle.
    + unfold copy_labels at 1. cbn [map for_each]. unfold bind at 1.
      rewrite Hanno by (apply elem_of_app; right; left). rewrite Hr.
      unfold bind. destruct (shutil_copy _ dst_dir disk) as [[[]|e] disk']; reflexivity.
    + intros r0 Hr0. rewrite Hanno by (apply elem_of_app; left; exact Hr0).
      exact (counts_by_annotated_zero pre Hz r0 Hr0).
Qed.

End LabelsMore.

Section CopyScenesMore.

Context `{FileSystem}.
Import OsPath.

(** What [shutil.copytree(src, dst)] promises: it raises when [dst] is
    there already, and a copy that went well leaves [dst] and all that was
    there before. *)
Hypothesis copytree_refuses : forall src dst disk,
  os_path_exists dst disk = true -> exists e, fst (shutil_copytree src dst disk) = Raise e.
Hypothesis copytree_keeps : forall src dst disk disk' p,
  shutil_copytree src dst disk = (Ok tt, disk') ->
  os_path_exists p disk = true -> os_path_exists p disk' = true.
Hypothesis copytree_makes : forall src dst disk disk',
  shutil_copytree src dst disk = (Ok tt, disk') -> os_path_exists dst disk' = true.




End CopyScenesMore.

(** ** The further properties on the sample data *)

(** [split_n] with [n = 0] on the ten-scene catalog. *)
Lemma split_n_nonpositive_witness :
  0 <= 0
  /\ (catalog_ten <> [] ->
      fst (split_n catalog_ten 0 (DstDir "/out") true (seed 42, disk_ten))
      = Raise (ValueError "number sections must be larger than 0.")
      /\ snd (snd (split_n catalog_ten 0 (DstDir "/out") true (seed 42, disk_ten)))
         = disk_ten)
  /\ split_n [] 0 (DstDir "/out") true (seed 42, disk_ten) = (Ok tt, (seed 42, disk_ten)).
Proof.
  split; [lia|].
  apply (@split_n_nonpositive mersenne_twister sample_fs catalog_ten 0 (DstDir "/out") true
           (seed 42, disk_ten)). lia.
Defined.

(** Four scenes in three chunks with one destination only. *)
Lemma split_n_group_short_destinations_witness :
  1 <= 3
  /\ exists chunks : list (list string),
       array_split (seeded_shuffle ["/s/a.tif"; "/s/b.tif"; "/s/c.tif"; "/s/d.tif"]) 3
       = Ok chunks
       /\ length (assignments chunks ["/out/0"]) = Nat.min (Z.to_nat 3) 1.
Proof.
  split; [lia|].
  destruct (@split_n_group_short_destinations mersenne_twister sample_fs 3 ["/out/0"] false
              ["/s/a.tif"; "/s/b.tif"; "/s/c.tif"; "/s/d.tif"] (seed 42, disk_ten))
    as (chunks & Hsplit & Hlen & _); [lia|].
  exists chunks. split; [exact Hsplit | exact Hlen].
Defined.

(** With the four scenes above, three chunks and the one destination
    [/out/0], the chunks of one scene each are left where they are. *)
Example split_n_drops_chunks :
  array_split (seeded_shuffle ["/s/a.tif"; "/s/b.tif"; "/s/c.tif"; "/s/d.tif"]) 3
  = Ok [["/s/c.tif"; "/s/b.tif"]; ["/s/d.tif"]; ["/s/a.tif"]]
  /\ assignments [["/s/c.tif"; "/s/b.tif"]; ["/s/d.tif"]; ["/s/a.tif"]] ["/out/0"]
     = [(0%nat, (["/s/c.tif"; "/s/b.tif"], "/out/0"))].
Proof. split; vm_compute; reflexivity. Qed.

Lemma basename_join_splitext_witness :
  (forall i, ~ PyStr.occurs_at "a_k3.tif" OsPath.sep i)
  /\ OsPath.basename (OsPath.join "/data/scenes/a" "a_k3.tif") = "a_k3.tif".
Proof.
  assert (Hno : forall i, ~ PyStr.occurs_at "a_k3.tif" OsPath.sep i)
    by (apply rfind_absent; reflexivity).
  split; [exact Hno|].
  exact (proj1 (basename_join_splitext "/data/scenes/a" "a_k3.tif" Hno)).
Defined.

(** A relative destination: the directory that is tested and the one that
    receives the scene. *)
Example transfer_relative_destination :
  let dst_dir := OsPath.join "out/0" (from_scenes (OsPath.dirname "/data/scenes/a/x.tif")) in
  dst_dir = "out/0/scenes/a"
  /\ OsPath.join "out/0" dst_dir = "out/0/out/0/scenes/a"
  /\ from_scenes "/data/images/a" = "a".
Proof. repeat split; vm_compute; reflexivity. Qed.

(** The map of the catalog [x, y, x]. *)
Lemma map_view_content_witness :
  (forall r : Row, r ∈ catalog_xyx -> is_Some (SATELLITE_COLORS !! sat_name r))
  /\ exists m legend,
       vis_on_map "<ul>" "</ul>" catalog_xyx = Ok (m, legend)
       /\ map tooltip m ≡ₚ names catalog_xyx.
Proof.
  assert (Hall : forall r : Row, r ∈ catalog_xyx ->
                                 is_Some (SATELLITE_COLORS !! sat_name r)).
  { intros r Hr. unfold catalog_xyx in Hr.
    repeat (apply elem_of_cons in Hr as [->|Hr]); [| | |inversion Hr];
      vm_compute; eexists; reflexivity. }
  split; [exact Hall|].
  destruct (map_view_content "<ul>" "</ul>" catalog_xyx Hall)
    as (m & legend & Hmap & _ & _ & Htips & _).
  exists m, legend. split; [exact Hmap | exact Htips].
Defined.

(** The build on the sample disk: three records and two diagnostics for
    five kept paths. *)
Lemma build_record_invariants_witness :
  exists built printed,
    build disk_scenes ["/data/scenes"] [None] ["jp2"; "tif"] = (Ok built, printed)
    /\ length built = 3%nat /\ length printed = 2%nat
    /\ (length built + length printed
        = length (all_kept_paths disk_scenes ["/data/scenes"] [None] ["jp2"; "tif"]))%nat.
Proof.
  assert (Hbuild : build disk_scenes ["/data/scenes"] [None] ["jp2"; "tif"]
                   = (Ok (map (fun r : Row => scene r) catalog_scenes),
                      ["Can not open /data/scenes/b/broken.TIF";
                       "Can not open /data/scenes/inf/mytif"]))
    by (vm_compute; reflexivity).
  eexists _, _. split; [exact Hbuild|]. split; [reflexivity|]. split; [reflexivity|].
  exact (proj1 (build_record_invariants disk_scenes ["/data/scenes"] [None] ["jp2"; "tif"]
                  _ _ Hbuild)).
Defined.

(** The catalog built from [disk_scenes]: its first record is annotated,
    and [copy_labels] begins with the label of that record. *)
Lemma copy_labels_of_built_witness :
  (exists built,
     fst (build disk_scenes ["/data/scenes"] [None] ["jp2"; "tif"]) = Ok built
     /\ forall r : Row, r ∈ catalog_scenes -> scene r ∈ built)
  /\ (counts_by_annotated catalog_scenes = 0%nat ->
      copy_labels sample_copy catalog_scenes "/labels" disk_scenes = (Ok tt, disk_scenes)).
Proof.
  assert (Hbuild : fst (build disk_scenes ["/data/scenes"] [None] ["jp2"; "tif"])
                   = Ok (map (fun r : Row => scene r) catalog_scenes))
    by (vm_compute; reflexivity).
  assert (Hbuilt : forall r : Row, r ∈ catalog_scenes ->
                     scene r ∈ map (fun r : Row => scene r) catalog_scenes).
  { intros r Hr. apply list_elem_of_In, in_map, list_elem_of_In, Hr. }
  split; [eexists; split; [exact Hbuild | exact Hbuilt]|].
  exact (proj1 (copy_labels_of_built sample_copy disk_scenes ["/data/scenes"] [None]
                  ["jp2"; "tif"] _ catalog_scenes "/labels" Hbuild Hbuilt)).
Defined.

Example copy_labels_of_disk_scenes :
  map (fun r : Row => (name r, is_anno r)) catalog_scenes
  = [("a_k3", true); ("far", false); ("flat", false)]
  /\ fst (copy_labels sample_copy catalog_scenes "/labels" disk_scenes) = Ok tt
  /\ existing (snd (copy_labels sample_copy catalog_scenes "/labels" disk_scenes))
     = {[ "/labels/a_k3.label" ]} ∪ existing disk_scenes.
Proof. repeat split; vm_compute; reflexivity. Qed.





Example copy_scenes_alike :
  copy_scenes catalog_alike "/out" disk_alike
  = (Raise (OSError "/out/scenes/a"),
     {| existing := {[ "/out/scenes/a" ]} ∪ existing disk_alike; listing := [] |}).
Proof. vm_compute. reflexivity. Qed.
